(** * dynamodb-helper: the DynamoDBDocumentClient wrapper (src/wrapper.js)

    A shallow embedding of the wrapper class and of the part of JavaScript
    and of the aws-sdk (v2) surface it relies on, followed by the properties
    of its specification.

    - [JS]: the values the wrapper handles (plain data), objects as ordered
      property lists, truthiness, string conversion, array concatenation.
    - [buildConditionExpression]: the pure condition builder.
    - [sdkE]: the calls the wrapper makes into the aws-sdk, as events of an
      interaction tree; the four operations and the constructor are trees
      over these events.
    - [sdk]: a handler for the events; it keeps the process-wide
      configuration, replays the completions the service delivers and records
      every request that was issued. [ends] states how a run against it
      ends, [exec] computes it. *)

From Stdlib Require Import List String Ascii ZArith Bool Arith Lia.
From Stdlib Require Import Numbers.DecimalString.
From ITree Require Import ITree ITreeFacts Events.State Events.StateFacts.
Import ListNotations.
Import ITreeNotations.
Local Open Scope string_scope.
Local Open Scope list_scope.
Local Open Scope itree_scope.

(** String concatenation, JavaScript's [+] on strings. *)
Infix "+++" := String.append (right associativity, at level 60).

(* ===================================================================== *)
(** * JavaScript data *)
(* ===================================================================== *)

Module JS.

#[local] Set Warnings "-register-all".

(** Data values. Numbers are the integers (printed in decimal, as
    JavaScript prints every integer below 10^21; fractions have no value
    here); an object is the list of its own enumerable string-keyed
    properties in enumeration order, and every key occurs once (see [wf]);
    its prototype is [Object.prototype]. [VFun name] is a built-in function,
    such as the methods every object inherits. *)
Inductive value : Type :=
| VUndefined
| VNull
| VBool (b : bool)
| VNum (n : Z)
| VStr (s : string)
| VArr (xs : list value)
| VObj (props : list (string * value))
| VFun (name : string).

Definition obj : Type := list (string * value).

(** [for (const key in o)] visits these keys, in this order. *)
Definition keys (o : obj) : list string := List.map (@Datatypes.fst string value) o.

(** A JavaScript object has each property once. *)
Definition wf (o : obj) : Prop := NoDup (keys o).

Fixpoint lookup (o : obj) (k : string) : option value :=
  match o with
  | [] => None
  | (k', v) :: o' => if String.eqb k' k then Some v else lookup o' k
  end.

(** What an object inherits from [Object.prototype] under the name [k]:
    the constructor [Object], one of the built-in methods, or, for
    [__proto__], the prototype itself (an object without enumerable
    properties). *)
Definition inherited (k : string) : option value :=
  if String.eqb k "constructor" then Some (VFun "Object")
  else if String.eqb k "__proto__" then Some (VObj [])
  else if existsb (String.eqb k)
            ["toString"; "toLocaleString"; "valueOf"; "hasOwnProperty";
             "isPrototypeOf"; "propertyIsEnumerable";
             "__defineGetter__"; "__defineSetter__";
             "__lookupGetter__"; "__lookupSetter__"]
       then Some (VFun k)
       else None.

(** [o[k]]: the own property under [k]; without one, the member inherited
    under that name; without that, [undefined]. *)
Definition get (o : obj) (k : string) : value :=
  match lookup o k with
  | Some v => v
  | None =>
      match inherited k with
      | Some v => v
      | None => VUndefined
      end
  end.

(** [o[k] = v] for a key that is not an array index (every key the wrapper
    writes starts with a letter, [#] or [:]): an existing property keeps its
    place, a new one goes last. *)
Fixpoint set (o : obj) (k : string) (v : value) : obj :=
  match o with
  | [] => [(k, v)]
  | (k', v') :: o' =>
      if String.eqb k' k then (k', v) :: o' else (k', v') :: set o' k v
  end.

(** [v.name] for a named field ([Items], [LastEvaluatedKey], ...; not an
    index and not [length]): reading a field of [undefined] or [null]
    raises a TypeError ([None]); a primitive or an array has no such
    field. *)
Definition field (v : value) (name : string) : option value :=
  match v with
  | VUndefined | VNull => None
  | VObj o => Some (get o name)
  | _ => Some VUndefined
  end.

(** ToBoolean, as [if (v)], [!v] and [a && b] apply it. *)
Definition truthy (v : value) : bool :=
  match v with
  | VUndefined | VNull => false
  | VBool b => b
  | VNum n => negb (n =? 0)%Z
  | VStr s => negb (String.eqb s "")
  | VArr _ | VObj _ | VFun _ => true
  end.

(** ToString, as a template literal [`${v}`] applies it. An array prints
    its elements separated by commas, [null] and [undefined] elements as
    nothing; a built-in function prints as
    [function name() { [native code] }]. *)
Fixpoint ToString (v : value) : string :=
  match v with
  | VUndefined => "undefined"
  | VNull => "null"
  | VBool true => "true"
  | VBool false => "false"
  | VNum n => NilZero.string_of_int (Z.to_int n)
  | VStr s => s
  | VArr xs =>
      (fix join (l : list value) : string :=
         match l with
         | [] => ""
         | x :: l' =>
             let sx := match x with
                       | VUndefined | VNull => ""
                       | _ => ToString x
                       end in
             match l' with
             | [] => sx
             | _ :: _ => sx +++ "," +++ join l'
             end
         end) xs
  | VObj _ => "[object Object]"
  | VFun name => "function " +++ name +++ "() { [native code] }"
  end.

(** [a.concat(v)]: an array argument contributes its elements, anything
    else is appended as one element. *)
Definition concat (a : list value) (v : value) : list value :=
  match v with
  | VArr xs => a ++ xs
  | _ => a ++ [v]
  end.

End JS.

Import JS.

(* ===================================================================== *)
(** * The condition builder *)
(* ===================================================================== *)

(** The value [buildConditionExpression] returns:
    [{ expression, names, values }]. *)
Record condition : Type := mkCondition {
  expression : string;
  names : obj;
  values : obj
}.

(** One turn of the [for (const key in expression)] loop, on the three
    accumulators [expressionString], [expressionAttributeNames] and
    [expressionAttributeValues]. *)
Definition buildStep (expr comparison : obj) (acc : condition) (key : string)
  : condition :=
  let attributeName := "#" +++ key in
  let attributeValue := ":" +++ key in
  let comparisonOperator := get comparison key in
  let expressionAttributeNames := set (names acc) attributeName (VStr key) in
  let expressionAttributeValues := set (values acc) attributeValue (get expr key) in
  let expressionString :=
    if (0 <? String.length (expression acc))%nat
    then expression acc +++ " AND "
    else expression acc in
  mkCondition
    (expressionString
       +++ (attributeName +++ " " +++ ToString comparisonOperator +++ " " +++ attributeValue))
    expressionAttributeNames
    expressionAttributeValues.

Definition buildConditionExpression (expr comparison : obj) : condition :=
  fold_left (buildStep expr comparison) (keys expr) (mkCondition "" [] []).

(* ===================================================================== *)
(** * The aws-sdk surface the wrapper calls *)
(* ===================================================================== *)

(** A [new AWS.DynamoDB.DocumentClient()]: the service object, with the
    region and the endpoint override it was created with. *)
Record DocumentClient : Type := mkClient {
  client_region : value;
  client_endpoint : value
}.

(** [client.get], [client.put], [client.delete], [client.scan]. *)
Inductive method : Type := Get | Put | Delete | Scan.

(** What the client hands to the callback: [function (err, data)]. *)
Record completion : Type := mkCompletion {
  err : value;
  data : value
}.

(** A request as the service object receives it. *)
Record request : Type := mkRequest {
  via : DocumentClient;
  op : method;
  params : obj
}.

Variant sdkE : Type -> Type :=
| ConfigUpdate (patch : obj) : sdkE unit          (* AWS.config.update(patch) *)
| NewDocumentClient : sdkE DocumentClient         (* new AWS.DynamoDB.DocumentClient() *)
| Call (c : DocumentClient) (m : method) (p : obj) : sdkE completion.
                                                  (* c.m(p, callback) *)

(* ===================================================================== *)
(** * The wrapper class *)
(* ===================================================================== *)

(** An instance: [this.client]. *)
Record DynamoDBDocumentClient : Type := mkWrapper {
  client : DocumentClient
}.

(** How the promise an operation returns ends. [Uncaught]: the callback
    raised a TypeError before settling the promise, which then stays
    pending. *)
Inductive outcome : Type :=
| Resolved (v : value)
| Rejected (e : value)
| Uncaught.

(** [{ ...target, ...source }]: the properties of [source] are written
    into [target] in order. *)
Definition spread (target source : obj) : obj :=
  fold_left (fun o kv => set o (Datatypes.fst kv) (Datatypes.snd kv)) source target.

(** [v && o], spread: a falsy [v] is a primitive and contributes no
    property. *)
Definition guarded (v : value) (o : obj) : obj :=
  if truthy v then o else [].

(** The argument of [AWS.config.update] in the constructor:
    [{ ...region && { region }, ...endpoint && { dynamodb: { endpoint: endpoint } } }]. *)
Definition configPatch (region endpoint : value) : obj :=
  spread (spread [] (guarded region [("region", region)]))
         (guarded endpoint [("dynamodb", VObj [("endpoint", endpoint)])]).

Definition constructor (region endpoint : value) : itree sdkE DynamoDBDocumentClient :=
  ITree.trigger (ConfigUpdate (configPatch region endpoint));;
  c <- ITree.trigger NewDocumentClient;;
  Ret (mkWrapper c).

(** [function (err, data) { if (err) reject(err); else resolve(data); }] *)
Definition settle (c : completion) : outcome :=
  if truthy (err c) then Rejected (err c) else Resolved (data c).

Definition getItem (self : DynamoDBDocumentClient) (tableName key : value)
  : itree sdkE outcome :=
  let params := [("TableName", tableName); ("Key", key)] in
  c <- ITree.trigger (Call (client self) Get params);;
  Ret (settle c).

(** The block [if (expression && comparison) { ... }] that [deleteItem] and
    [putItem] share. The two arguments are objects or [null] (their
    default); an object is truthy. *)
Definition attachCondition (params : obj) (expr comparison : option obj) : obj :=
  match expr, comparison with
  | Some e, Some c =>
      let conditionExpression := buildConditionExpression e c in
      let params := set params "ConditionExpression"
                        (VStr (expression conditionExpression)) in
      let params := set params "ExpressionAttributeNames"
                        (VObj (names conditionExpression)) in
      set params "ExpressionAttributeValues" (VObj (values conditionExpression))
  | _, _ => params
  end.

Definition deleteItem (self : DynamoDBDocumentClient) (tableName key : value)
    (expr comparison : option obj) : itree sdkE outcome :=
  let params := [("TableName", tableName); ("Key", key)] in
  let params := attachCondition params expr comparison in
  c <- ITree.trigger (Call (client self) Delete params);;
  Ret (settle c).

Definition putItem (self : DynamoDBDocumentClient) (tableName item : value)
    (expr comparison : option obj) : itree sdkE outcome :=
  let params := [("TableName", tableName); ("Item", item)] in
  let params := attachCondition params expr comparison in
  c <- ITree.trigger (Call (client self) Put params);;
  Ret (settle c).

(** The callback [onScan] of the paginated scan, as one turn of a loop on
    the request parameters and the [items] gathered so far: [inl] scans
    again, [inr] ends. *)
Definition onScan (self : DynamoDBDocumentClient) (st : obj * list value)
  : itree sdkE (obj * list value + outcome) :=
  let '(params, items) := st in
  c <- ITree.trigger (Call (client self) Scan params);;
  if truthy (err c) then Ret (inr (Rejected (err c)))
  else
    match field (data c) "Items", field (data c) "LastEvaluatedKey" with
    | Some page, Some lastEvaluatedKey =>
        let items := JS.concat items page in
        if truthy lastEvaluatedKey
        then Ret (inl (set params "ExclusiveStartKey" lastEvaluatedKey, items))
        else Ret (inr (Resolved (VArr items)))
    | _, _ => Ret (inr Uncaught)
    end.

Definition scanTable (self : DynamoDBDocumentClient) (tableName : value)
    (paginate : bool) : itree sdkE outcome :=
  let params := [("TableName", tableName)] in
  if negb paginate then
    c <- ITree.trigger (Call (client self) Scan params);;
    if truthy (err c) then Ret (Rejected (err c))
    else
      match field (data c) "Items" with
      | Some page => Ret (Resolved page)
      | None => Ret Uncaught
      end
  else
    ITree.iter (onScan self) (params, []).

(* ===================================================================== *)
(** * Running the wrapper against the sdk *)
(* ===================================================================== *)

(** The process as the sdk sees it: the shared configuration [AWS.config],
    the completions the service will deliver, in order, and the requests
    issued so far. *)
Record World : Type := mkWorld {
  config : obj;
  inbox : list completion;
  issued : list request
}.

(** The endpoint a new DynamoDB service object takes: the service-specific
    [dynamodb.endpoint] when there is one, else the global [endpoint]. *)
Definition endpointOf (cfg : obj) : value :=
  match get cfg "dynamodb" with
  | VObj svc =>
      match lookup svc "endpoint" with
      | Some e => e
      | None => get cfg "endpoint"
      end
  | _ => get cfg "endpoint"
  end.

(** The region it takes, likewise: the service-specific [dynamodb.region]
    when there is one ([null], the default, when it is [undefined]), else
    the global [region]. *)
Definition regionOf (cfg : obj) : value :=
  match get cfg "dynamodb" with
  | VObj svc =>
      match lookup svc "region" with
      | Some VUndefined => VNull
      | Some r => r
      | None => get cfg "region"
      end
  | _ => get cfg "region"
  end.

(** The service object created from configuration [cfg]: the entry of the
    service is applied over the global settings. *)
Definition clientOf (cfg : obj) : DocumentClient :=
  mkClient (regionOf cfg) (endpointOf cfg).

(** The sdk, one event at a time. [AWS.config.update] writes the given keys
    into the shared configuration. A new service object copies the
    configuration as it is when the object is created ("updates you make to
    the global AWS.config object don't apply to previously created service
    objects", aws-sdk v2 developer guide). A call is recorded and completes
    with the next completion of the inbox; with none left the callback is
    never invoked ([None]). *)
Definition step {T : Type} (e : sdkE T) (w : World) : option (World * T) :=
  match e in sdkE T return option (World * T) with
  | ConfigUpdate patch =>
      Some (mkWorld (spread (config w) patch) (inbox w) (issued w), tt)
  | NewDocumentClient =>
      Some (w, clientOf (config w))
  | Call c m p =>
      match inbox w with
      | [] => None
      | r :: rest =>
          Some (mkWorld (config w) rest (issued w ++ [mkRequest c m p]), r)
      end
  end.

(** The handler of the events: a step of the sdk, or silence for ever when
    the callback is never invoked. *)
Definition sdk : forall T, sdkE T -> Monads.stateT World (itree void1) T :=
  fun T e w =>
    match step e w with
    | Some wx => Ret wx
    | None => ITree.spin
    end.

(** [run t w]: the tree [t] run against the sdk from world [w]. *)
Definition run {R : Type} (t : itree sdkE R) (w : World) : itree void1 (World * R) :=
  interp_state sdk t w.

(** The same run as a function: [exec fuel t w] follows [t] for at most
    [fuel] nodes and returns the world and the result it ends with. *)
Fixpoint exec {R : Type} (fuel : nat) (t : itree sdkE R) (w : World)
  : option (World * R) :=
  match fuel with
  | 0 => None
  | S fuel' =>
      match observe t with
      | RetF r => Some (w, r)
      | TauF t' => exec fuel' t' w
      | VisF e k =>
          match step e w with
          | Some (w', x) => exec fuel' (k x) w'
          | None => None
          end
      end
  end.

(* ===================================================================== *)
(** * Specification vocabulary *)
(* ===================================================================== *)

(** The clause the builder writes for [key] with [operator]:
    [`${attributeName} ${comparisonOperator} ${attributeValue}`]. *)
Definition clauseWith (key : string) (operator : value) : string :=
  ("#" +++ key) +++ " " +++ ToString operator +++ " " +++ (":" +++ key).

Definition clause (comparison : obj) (key : string) : string :=
  clauseWith key (get comparison key).

(** [ends t w w' r]: run against the sdk from world [w], the tree [t] ends,
    in world [w'] and with result [r]. *)
Definition ends {R : Type} (t : itree sdkE R) (w w' : World) (r : R) : Prop :=
  run t w ≈ Ret (w', r).

(** The world [w] once the requests [rqs] were issued and answered, [rest]
    being what remains of the inbox. *)
Definition answered (w : World) (rest : list completion) (rqs : list request) : World :=
  mkWorld (config w) rest (issued w ++ rqs).

Definition isObject (v : value) : bool :=
  match v with
  | VObj _ => true
  | _ => false
  end.

(** The two fields of a scan response the wrapper reads: [data.Items] and
    [data.LastEvaluatedKey]. *)
Definition itemsOf (c : completion) : value :=
  match field (data c) "Items" with
  | Some v => v
  | None => VUndefined
  end.

Definition tokenOf (c : completion) : value :=
  match field (data c) "LastEvaluatedKey" with
  | Some v => v
  | None => VUndefined
  end.

(** A completion that delivers an error: [err] is set. *)
Definition failed (c : completion) : bool := truthy (err c).

(** A page: a completion without error whose payload is an object. It
    carries a continuation token ([morePage]) or none ([lastPage]). *)
Definition morePage (c : completion) : bool :=
  negb (truthy (err c)) && isObject (data c) && truthy (tokenOf c).

Definition lastPage (c : completion) : bool :=
  negb (truthy (err c)) && isObject (data c) && negb (truthy (tokenOf c)).

(** The items of a page: the elements of its [Items] array. *)
Definition pageItems (c : completion) : list value := JS.concat [] (itemsOf c).

(** The scan requests that answer to a sequence of responses: the first
    names the table only, each later one also carries the token of the
    response before it as [ExclusiveStartKey]. *)
Definition scanRequests (c : DocumentClient) (tableName : value)
    (responses : list completion) : list request :=
  match responses with
  | [] => []
  | _ :: _ =>
      mkRequest c Scan [("TableName", tableName)]
      :: List.map (fun prev =>
                     mkRequest c Scan [("TableName", tableName);
                                       ("ExclusiveStartKey", tokenOf prev)])
                  (removelast responses)
  end.

(** The paginated scan seen from its loop: the parameters after the
    responses [pages] were handled, and the requests the loop issues, from
    parameters [params], to receive [responses]. *)
Definition paramsAfter (params : obj) (pages : list completion) : obj :=
  fold_left (fun p c => set p "ExclusiveStartKey" (tokenOf c)) pages params.

Fixpoint loopRequests (c : DocumentClient) (params : obj)
    (responses : list completion) : list request :=
  match responses with
  | [] => []
  | r :: responses' =>
      mkRequest c Scan params
      :: loopRequests c (set params "ExclusiveStartKey" (tokenOf r)) responses'
  end.

(** What the DocumentClient hands to the callback of a [get] that finds no
    item under the key: no error and an empty payload, [{}]. *)
Definition noItem : completion := mkCompletion VNull (VObj []).

(** What it hands to the callback of a [get] that finds [item]:
    [{ Item: item }]; and to the callback of a [put] that was applied:
    [{}]. *)
Definition found (item : value) : completion :=
  mkCompletion VNull (VObj [("Item", item)]).

Definition written : completion := mkCompletion VNull (VObj []).

(* ===================================================================== *)
(** * Strings and objects *)
(* ===================================================================== *)

Lemma append_assoc (a b c : string) : (a +++ b) +++ c = a +++ (b +++ c).
Proof.
  induction a as [|ch a IH]; simpl; [reflexivity | now rewrite IH].
Qed.

Lemma length_append (a b : string) :
  String.length (a +++ b) = String.length a + String.length b.
Proof.
  induction a as [|ch a IH]; simpl; [reflexivity | now rewrite IH].
Qed.

Lemma clauseWith_length key operator :
  0 < String.length (clauseWith key operator).
Proof.
  unfold clauseWith. simpl. lia.
Qed.

(** Joining with a separator, one more element at the end. *)
Lemma concat_snoc sep (c0 : string) (cs : list string) (c : string) :
  String.concat sep ((c0 :: cs) ++ [c]) = String.concat sep (c0 :: cs) +++ sep +++ c.
Proof.
  revert c0. induction cs as [|c1 cs IH]; intros c0.
  - reflexivity.
  - change (String.concat sep ((c0 :: c1 :: cs) ++ [c]))
      with (c0 +++ sep +++ String.concat sep ((c1 :: cs) ++ [c])).
    rewrite IH.
    change (String.concat sep (c0 :: c1 :: cs))
      with (c0 +++ sep +++ String.concat sep (c1 :: cs)).
    now rewrite !append_assoc.
Qed.

Lemma concat_length_pos sep (c0 : string) (cs : list string) :
  0 < String.length c0 -> 0 < String.length (String.concat sep (c0 :: cs)).
Proof.
  intros H. destruct cs as [|c1 cs]; simpl; [assumption|].
  rewrite length_append. lia.
Qed.

(** The length of a joined string: the elements, and one separator fewer
    than there are elements. *)
Lemma concat_length sep (cs : list string) :
  String.length (String.concat sep cs)
  = list_sum (List.map String.length cs) + String.length sep * (List.length cs - 1).
Proof.
  induction cs as [|c0 cs IH]; [simpl; lia|].
  destruct cs as [|c1 cs].
  - simpl. lia.
  - change (String.concat sep (c0 :: c1 :: cs))
      with (c0 +++ sep +++ String.concat sep (c1 :: cs)).
    rewrite !length_append, IH. simpl List.length. simpl list_sum. nia.
Qed.

Lemma lookup_In_keys (o : obj) (k : string) :
  In k (keys o) <-> exists v, lookup o k = Some v.
Proof.
  induction o as [|[k' v'] o IH]; simpl.
  - split; [tauto | intros [v H]; discriminate].
  - destruct (String.eqb_spec k' k) as [-> | Hne].
    + split; [intros _; now exists v' | now left].
    + rewrite <- IH. split; [intros [H | H]; [contradiction | assumption] | now right].
Qed.

(** Writing a property the object does not have yet adds it at the end. *)
Lemma set_fresh (o : obj) (k : string) (v : value) :
  ~ In k (keys o) -> set o k v = o ++ [(k, v)].
Proof.
  induction o as [|[k' v'] o IH]; simpl; intros H; [reflexivity|].
  destruct (String.eqb_spec k' k) as [-> | Hne]; [tauto|].
  rewrite IH; [reflexivity | tauto].
Qed.

Lemma get_set_same (o : obj) (k : string) (v : value) : get (set o k v) k = v.
Proof.
  unfold get. induction o as [|[k' v'] o IH]; simpl.
  - now rewrite String.eqb_refl.
  - destruct (String.eqb_spec k' k) as [-> | Hne]; simpl.
    + now rewrite String.eqb_refl.
    + destruct (String.eqb_spec k' k); [contradiction | assumption].
Qed.

Lemma lookup_set_other (o : obj) (k k' : string) (v : value) :
  k <> k' -> lookup (set o k v) k' = lookup o k'.
Proof.
  intros Hne. induction o as [|[k0 v0] o IH]; simpl.
  - destruct (String.eqb_spec k k'); [contradiction | reflexivity].
  - destruct (String.eqb_spec k0 k) as [-> | Hne0]; simpl.
    + destruct (String.eqb_spec k k'); [contradiction | reflexivity].
    + now rewrite IH.
Qed.

Lemma get_set_other (o : obj) (k k' : string) (v : value) :
  k <> k' -> get (set o k v) k' = get o k'.
Proof.
  intros Hne. unfold get. now rewrite lookup_set_other.
Qed.

(** In a well-formed object each listed property is the one a lookup finds. *)
Lemma get_listed (o : obj) (f : string -> string) :
  wf o ->
  List.map (fun k => (f k, get o k)) (keys o)
  = List.map (fun kv => (f (Datatypes.fst kv), Datatypes.snd kv)) o.
Proof.
  unfold wf, get. induction o as [|[k v] o IH]; simpl; intros Hwf; [reflexivity|].
  inversion Hwf as [|? ? Hk Hrest]; subst.
  rewrite String.eqb_refl. f_equal.
  rewrite <- (IH Hrest). apply map_ext_in. intros k' Hin.
  destruct (String.eqb_spec k k') as [-> | Hne]; [contradiction | reflexivity].
Qed.

(* ===================================================================== *)
(** * The condition builder: loop invariants *)
(* ===================================================================== *)

Section Builder.

Variables expr comparison : obj.

(** The expression string after the loop has run over [ks], having
    written the clauses [cs] before. *)
Lemma build_expression (ks : list string) :
  forall (cs : list string) (acc : condition),
    Forall (fun c => 0 < String.length c) cs ->
    expression acc = String.concat " AND " cs ->
    expression (fold_left (buildStep expr comparison) ks acc)
    = String.concat " AND " (cs ++ List.map (clause comparison) ks).
Proof.
  induction ks as [|k ks IH]; intros cs acc Hpos Hacc; simpl.
  - now rewrite app_nil_r.
  - replace (cs ++ clause comparison k :: List.map (clause comparison) ks)
      with ((cs ++ [clause comparison k]) ++ List.map (clause comparison) ks)
      by now rewrite <- app_assoc.
    apply IH.
    + apply Forall_app. split; [assumption|].
      constructor; [apply clauseWith_length | constructor].
    + unfold buildStep at 1. cbn [expression]. rewrite Hacc.
      destruct cs as [|c0 cs].
      * reflexivity.
      * inversion Hpos as [|? ? Hc0 _]; subst.
        pose proof (concat_length_pos " AND " c0 cs Hc0) as Hlen.
        apply Nat.ltb_lt in Hlen. rewrite Hlen.
        rewrite concat_snoc, append_assoc. reflexivity.
Qed.

Lemma build_names (ks : list string) (acc : condition) :
  names (fold_left (buildStep expr comparison) ks acc)
  = fold_left (fun o k => set o ("#" +++ k) (VStr k)) ks (names acc).
Proof.
  revert acc. induction ks as [|k ks IH]; intros acc; simpl; [reflexivity|].
  now rewrite IH.
Qed.

Lemma build_values (ks : list string) (acc : condition) :
  values (fold_left (buildStep expr comparison) ks acc)
  = fold_left (fun o k => set o (":" +++ k) (get expr k)) ks (values acc).
Proof.
  revert acc. induction ks as [|k ks IH]; intros acc; simpl; [reflexivity|].
  now rewrite IH.
Qed.

End Builder.

(** Writing one fresh placeholder per key, in order. *)
Lemma fold_set_fresh (g : string -> string) (h : string -> value) (ks : list string) :
  (forall a b, g a = g b -> a = b) ->
  NoDup ks ->
  forall o : obj,
    (forall k, In k ks -> ~ In (g k) (keys o)) ->
    fold_left (fun o k => set o (g k) (h k)) ks o
    = o ++ List.map (fun k => (g k, h k)) ks.
Proof.
  intros Hinj Hnd. induction Hnd as [|k ks Hk Hnd IH]; intros o Hfresh; simpl.
  - now rewrite app_nil_r.
  - rewrite set_fresh by (apply Hfresh; now left).
    rewrite IH.
    + now rewrite <- app_assoc.
    + intros k' Hk'. unfold keys. rewrite map_app, in_app_iff. simpl.
      intros [Hin | [Heq | []]].
      * apply (Hfresh k'); [now right | exact Hin].
      * apply Hinj in Heq. subst. contradiction.
Qed.

Lemma prefix_injective (c : ascii) (a b : string) :
  String c "" +++ a = String c "" +++ b -> a = b.
Proof.
  simpl. intros H. now inversion H.
Qed.

(** What the builder returns for a well-formed comparison-value object:
    the clauses of its keys joined in order, and one placeholder per key in
    each binding object. *)
Lemma build_result (expr comparison : obj) :
  wf expr ->
  let built := buildConditionExpression expr comparison in
  expression built = String.concat " AND " (List.map (clause comparison) (keys expr)) /\
  names built = List.map (fun k => ("#" +++ k, VStr k)) (keys expr) /\
  values built = List.map (fun kv => (":" +++ Datatypes.fst kv, Datatypes.snd kv)) expr.
Proof.
  intros Hwf built. unfold built, buildConditionExpression. repeat split.
  - now rewrite (build_expression expr comparison (keys expr) []).
  - rewrite build_names.
    rewrite (fold_set_fresh (fun k => "#" +++ k) VStr); auto.
    intros a b. apply prefix_injective.
  - rewrite build_values.
    rewrite (fold_set_fresh (fun k => ":" +++ k) (get expr)); auto.
    + simpl. now apply (get_listed expr (fun k => ":" +++ k)).
    + intros a b. apply prefix_injective.
Qed.

(** Each clause carries the operator the comparison object has for its
    key, when it has one for every key. *)
Lemma clauses_operators (comparison : obj) (ks : list string) :
  (forall k, In k ks -> In k (keys comparison)) ->
  Forall2 (fun k c => exists operator,
               lookup comparison k = Some operator /\ c = clauseWith k operator)
          ks (List.map (clause comparison) ks).
Proof.
  induction ks as [|k ks IH]; intros Hall; simpl; constructor.
  - destruct (proj1 (lookup_In_keys comparison k) (Hall k (or_introl eq_refl)))
      as [operator Hop].
    exists operator. split; [assumption|].
    unfold clause, get. now rewrite Hop.
  - apply IH. intros k' Hk'. apply Hall. now right.
Qed.

(** Reading back a placeholder from a binding object. *)
Lemma get_mapped (g : string -> string) (h : string -> value) (ks : list string) (k : string) :
  (forall a b, g a = g b -> a = b) ->
  In k ks ->
  get (List.map (fun k => (g k, h k)) ks) (g k) = h k.
Proof.
  intros Hinj. unfold get. induction ks as [|k0 ks IH]; simpl; [tauto|].
  intros [-> | Hin].
  - now rewrite String.eqb_refl.
  - destruct (String.eqb_spec (g k0) (g k)) as [Heq | Hne].
    + apply Hinj in Heq. now subst.
    + now apply IH.
Qed.

(* ===================================================================== *)
(** * Properties of the condition builder *)
(* ===================================================================== *)

(** C1. For a comparison-value object [expr] and a comparison-operator
    object [comparison] with the same N keys, [buildConditionExpression]
    returns an expression string made of exactly N clauses, the clause of
    key k being [#k op :k] for the operator [op] that [comparison] gives k,
    joined by " AND ": [String.concat] puts N-1 separators between N
    clauses, and the length of the string is that of the clauses plus N-1
    times the five characters of the separator. The names object has exactly
    N entries, [#k] bound to the attribute name k, and the values object
    exactly N entries, [:k] bound to the comparison value of k. *)
Theorem buildConditionExpression_counts (expr comparison : obj) :
  wf expr ->
  (forall k, In k (keys expr) <-> In k (keys comparison)) ->
  let N := List.length expr in
  let built := buildConditionExpression expr comparison in
  exists clauses : list string,
    List.length clauses = N /\
    Forall2 (fun k c => exists operator,
                 lookup comparison k = Some operator /\ c = clauseWith k operator)
            (keys expr) clauses /\
    expression built = String.concat " AND " clauses /\
    String.length (expression built)
    = list_sum (List.map String.length clauses) + 5 * (N - 1) /\
    names built = List.map (fun k => ("#" +++ k, VStr k)) (keys expr) /\
    values built
    = List.map (fun kv => (":" +++ Datatypes.fst kv, Datatypes.snd kv)) expr /\
    List.length (names built) = N /\
    List.length (values built) = N.
Proof.
  intros Hwf Hsame N built.
  destruct (build_result expr comparison Hwf) as (Hexpr & Hnames & Hvalues).
  fold built in Hexpr, Hnames, Hvalues.
  assert (HN : List.length (keys expr) = N)
    by (unfold keys; now rewrite length_map).
  exists (List.map (clause comparison) (keys expr)).
  split; [now rewrite length_map|].
  split; [apply clauses_operators; intros k; apply Hsame|].
  split; [exact Hexpr|].
  split; [rewrite Hexpr, concat_length, length_map, HN; reflexivity|].
  split; [exact Hnames|].
  split; [exact Hvalues|].
  split; [now rewrite Hnames, length_map | now rewrite Hvalues, length_map].
Qed.

Lemma buildConditionExpression_counts_witness :
  let expr := [("id", VStr "a"); ("v", VNum 1)] in
  let comparison := [("v", VStr "<>"); ("id", VStr "=")] in
  wf expr /\
  (forall k, In k (keys expr) <-> In k (keys comparison)) /\
  exists clauses : list string,
    List.length clauses = 2 /\
    Forall2 (fun k c => exists operator,
                 lookup comparison k = Some operator /\ c = clauseWith k operator)
            (keys expr) clauses /\
    expression (buildConditionExpression expr comparison)
    = String.concat " AND " clauses /\
    String.length (expression (buildConditionExpression expr comparison))
    = list_sum (List.map String.length clauses) + 5 * (2 - 1) /\
    names (buildConditionExpression expr comparison)
    = List.map (fun k => ("#" +++ k, VStr k)) (keys expr) /\
    values (buildConditionExpression expr comparison)
    = List.map (fun kv => (":" +++ Datatypes.fst kv, Datatypes.snd kv)) expr /\
    List.length (names (buildConditionExpression expr comparison)) = 2 /\
    List.length (values (buildConditionExpression expr comparison)) = 2.
Proof.
  intros expr comparison.
  assert (Hwf : wf expr).
  { unfold wf, expr. simpl. repeat constructor; simpl; intuition discriminate. }
  assert (Hsame : forall k, In k (keys expr) <-> In k (keys comparison)).
  { intros k. unfold expr, comparison. simpl. tauto. }
  split; [exact Hwf | split; [exact Hsame|]].
  exact (buildConditionExpression_counts expr comparison Hwf Hsame).
Defined.

(** C8, as the code has it. When a key k of the comparison-value object is
    absent from the comparison-operator object, and k is not the name of a
    member that every object inherits from [Object.prototype], the clause
    the builder writes at k's place is [#k undefined :k]: the text
    [undefined] stands where the operator goes. The bindings of k are
    written all the same: [#k] names k and [:k] holds k's comparison
    value. *)
Theorem buildConditionExpression_missing_operator (expr comparison : obj) (k : string) :
  wf expr ->
  In k (keys expr) ->
  lookup comparison k = None ->
  inherited k = None ->
  let built := buildConditionExpression expr comparison in
  (exists before after : list string,
      keys expr = before ++ k :: after /\
      expression built
      = String.concat " AND "
          (List.map (clause comparison) before
             ++ ("#" +++ k +++ " undefined " +++ ":" +++ k)
             :: List.map (clause comparison) after)) /\
  get (names built) ("#" +++ k) = VStr k /\
  get (values built) (":" +++ k) = get expr k.
Proof.
  intros Hwf Hin Hnone Hown built.
  destruct (build_result expr comparison Hwf) as (Hexpr & Hnames & Hvalues).
  fold built in Hexpr, Hnames, Hvalues.
  split; [|split].
  - destruct (in_split _ _ Hin) as (before & after & Hkeys).
    exists before, after. split; [assumption|].
    rewrite Hexpr, Hkeys, map_app. simpl. do 2 f_equal.
    unfold clause, clauseWith, get. rewrite Hnone, Hown. simpl.
    reflexivity.
  - rewrite Hnames.
    apply (get_mapped (fun k => "#" +++ k) VStr); [apply prefix_injective | assumption].
  - rewrite Hvalues, <- (get_listed expr (fun k => ":" +++ k) Hwf).
    apply (get_mapped (fun k => ":" +++ k) (get expr));
      [apply prefix_injective | assumption].
Qed.

(** C8, as the specification states it, fails at a key named like an
    inherited member: for the comparison values [{ constructor: 1 }] and no
    operators, [comparison["constructor"]] is the function [Object], and
    its text, not [undefined], stands in the clause. *)
Lemma buildConditionExpression_missing_operator_counterexample :
  let expr := [("constructor", VNum 1)] in
  let comparison : obj := [] in
  wf expr /\
  In "constructor" (keys expr) /\
  lookup comparison "constructor" = None /\
  expression (buildConditionExpression expr comparison)
  = "#constructor function Object() { [native code] } :constructor" /\
  ~ (exists before after : list string,
        keys expr = before ++ "constructor" :: after /\
        expression (buildConditionExpression expr comparison)
        = String.concat " AND "
            (List.map (clause comparison) before
               ++ ("#" +++ "constructor" +++ " undefined " +++ ":" +++ "constructor")
               :: List.map (clause comparison) after)).
Proof.
  intros expr comparison.
  split; [unfold wf; simpl; repeat constructor; simpl; tauto|].
  split; [simpl; tauto|].
  split; [reflexivity|].
  split; [reflexivity|].
  intros (before & after & Hkeys & Hexpr).
  destruct before as [|k0 before].
  - destruct after as [|k1 after]; [|discriminate Hkeys].
    vm_compute in Hexpr. discriminate Hexpr.
  - simpl in Hkeys. inversion Hkeys as [[Hk0 Hrest]].
    destruct before; discriminate Hrest.
Qed.

(* ===================================================================== *)
(** * Running trees: one event, sequencing, the loop *)
(* ===================================================================== *)

Lemma ends_ret {R : Type} (r : R) (w : World) : ends (Ret r) w w r.
Proof.
  unfold ends, run. now rewrite interp_state_ret.
Qed.

Lemma ends_bind {A R : Type} (t : itree sdkE A) (k : A -> itree sdkE R)
    (w w1 w2 : World) (a : A) (r : R) :
  ends t w w1 a -> ends (k a) w1 w2 r -> ends (ITree.bind t k) w w2 r.
Proof.
  unfold ends, run. intros Ht Hk.
  rewrite interp_state_bind, Ht, bind_ret_l. exact Hk.
Qed.

(** A call completes with the next completion of the inbox and is
    recorded. *)
Lemma ends_call (c : DocumentClient) (m : method) (p : obj)
    (w : World) (r : completion) (rest : list completion) :
  inbox w = r :: rest ->
  ends (ITree.trigger (Call c m p)) w (answered w rest [mkRequest c m p]) r.
Proof.
  intros H. unfold ends, run. rewrite interp_state_trigger.
  unfold sdk, step. rewrite H. reflexivity.
Qed.

(** One turn of a loop that goes on, and one that ends it. *)
Lemma ends_iter_again {I R : Type} (body : I -> itree sdkE (I + R))
    (i i' : I) (w w1 w2 : World) (r : R) :
  ends (body i) w w1 (inl i') ->
  ends (ITree.iter body i') w1 w2 r ->
  ends (ITree.iter body i) w w2 r.
Proof.
  unfold ends, run. intros Hbody Hloop.
  rewrite unfold_iter, interp_state_bind, Hbody, bind_ret_l.
  cbn. rewrite interp_state_tau, tau_eutt. exact Hloop.
Qed.

Lemma ends_iter_done {I R : Type} (body : I -> itree sdkE (I + R))
    (i : I) (w w1 : World) (r : R) :
  ends (body i) w w1 (inr r) ->
  ends (ITree.iter body i) w w1 r.
Proof.
  unfold ends, run. intros Hbody.
  rewrite unfold_iter, interp_state_bind, Hbody, bind_ret_l.
  cbn. now rewrite interp_state_ret.
Qed.

(** A run has one end. *)
Lemma ends_unique {R : Type} (t : itree sdkE R) (w w1 w2 : World) (r1 r2 : R) :
  ends t w w1 r1 -> ends t w w2 r2 -> w1 = w2 /\ r1 = r2.
Proof.
  unfold ends. intros H1 H2. rewrite H1 in H2.
  apply eutt_inv_Ret in H2. now inversion H2.
Qed.

(** What [exec] computes is an end of the run. *)
Lemma exec_ends {R : Type} (fuel : nat) :
  forall (t : itree sdkE R) (w w' : World) (r : R),
    exec fuel t w = Some (w', r) -> ends t w w' r.
Proof.
  induction fuel as [|fuel IH]; intros t w w' r H; [discriminate|].
  simpl in H. unfold ends, run. rewrite (itree_eta t).
  destruct (observe t) as [r0 | t' | X e k].
  - inversion H; subst. now rewrite interp_state_ret.
  - rewrite interp_state_tau, tau_eutt. now apply IH.
  - destruct (step e w) as [[w1 x]|] eqn:Hstep; [|discriminate].
    rewrite interp_state_vis. unfold sdk at 1. rewrite Hstep, bind_ret_l.
    cbn. rewrite tau_eutt. now apply IH.
Qed.

(* ===================================================================== *)
(** * The operations, run *)
(* ===================================================================== *)

Lemma answered_answered (w : World) (rest1 rest2 : list completion)
    (rqs1 rqs2 : list request) :
  answered (answered w rest1 rqs1) rest2 rqs2 = answered w rest2 (rqs1 ++ rqs2).
Proof.
  unfold answered. simpl. now rewrite app_assoc.
Qed.

(** The three single-request operations: one call, settled by its
    completion. *)
Lemma ends_single (c : DocumentClient) (m : method) (p : obj)
    (w : World) (r : completion) (rest : list completion) :
  inbox w = r :: rest ->
  ends (x <- ITree.trigger (Call c m p);; Ret (settle x))
       w (answered w rest [mkRequest c m p]) (settle r).
Proof.
  intros H. eapply ends_bind; [apply ends_call; eassumption | apply ends_ret].
Qed.

Lemma settle_failed (c : completion) : failed c = true -> settle c = Rejected (err c).
Proof.
  unfold failed, settle. now intros ->.
Qed.

(** The unpaginated scan. *)
Lemma ends_scan_once (self : DynamoDBDocumentClient) (tableName : value)
    (w : World) (r : completion) (rest : list completion) :
  inbox w = r :: rest ->
  ends (scanTable self tableName false) w
       (answered w rest [mkRequest (client self) Scan [("TableName", tableName)]])
       (if truthy (err r) then Rejected (err r)
        else match field (data r) "Items" with
             | Some page => Resolved page
             | None => Uncaught
             end).
Proof.
  intros H. unfold scanTable. simpl negb. cbv iota.
  eapply ends_bind; [apply ends_call; eassumption|].
  destruct (truthy (err r)); [apply ends_ret|].
  destruct (field (data r) "Items"); apply ends_ret.
Qed.

(** One turn of [onScan], by the kind of the response. *)
Lemma ends_onScan_failed (self : DynamoDBDocumentClient) (params : obj)
    (items : list value) (w : World) (r : completion) (rest : list completion) :
  inbox w = r :: rest ->
  failed r = true ->
  ends (onScan self (params, items)) w
       (answered w rest [mkRequest (client self) Scan params])
       (inr (Rejected (err r))).
Proof.
  intros H Hfail. unfold onScan.
  eapply ends_bind; [apply ends_call; eassumption|].
  unfold failed in Hfail. rewrite Hfail. apply ends_ret.
Qed.

Lemma ends_onScan_page (self : DynamoDBDocumentClient) (params : obj)
    (items : list value) (w : World) (r : completion) (rest : list completion) :
  inbox w = r :: rest ->
  failed r = false ->
  isObject (data r) = true ->
  ends (onScan self (params, items)) w
       (answered w rest [mkRequest (client self) Scan params])
       (if truthy (tokenOf r)
        then inl (set params "ExclusiveStartKey" (tokenOf r),
                  JS.concat items (itemsOf r))
        else inr (Resolved (VArr (JS.concat items (itemsOf r))))).
Proof.
  intros H Hok Hobj. unfold onScan.
  eapply ends_bind; [apply ends_call; eassumption|].
  unfold failed in Hok. rewrite Hok.
  unfold tokenOf, itemsOf.
  destruct (data r); try discriminate. simpl.
  destruct (truthy (get props "LastEvaluatedKey")); apply ends_ret.
Qed.

Lemma morePage_inv (c : completion) :
  morePage c = true ->
  failed c = false /\ isObject (data c) = true /\ truthy (tokenOf c) = true.
Proof.
  unfold morePage, failed. rewrite !andb_true_iff, negb_true_iff. tauto.
Qed.

Lemma lastPage_inv (c : completion) :
  lastPage c = true ->
  failed c = false /\ isObject (data c) = true /\ truthy (tokenOf c) = false.
Proof.
  unfold lastPage, failed. rewrite !andb_true_iff, !negb_true_iff. tauto.
Qed.

Lemma concat_pageItems (items : list value) (c : completion) :
  JS.concat items (itemsOf c) = items ++ pageItems c.
Proof.
  unfold pageItems, JS.concat. now destruct (itemsOf c).
Qed.

(** The loop over pages that carry a token: it goes on, from the
    parameters and the items these pages leave. *)
Lemma ends_scan_pages (self : DynamoDBDocumentClient) (pages : list completion) :
  forall (params : obj) (items : list value) (w w2 : World)
         (rest : list completion) (r : outcome),
    Forall (fun c => morePage c = true) pages ->
    inbox w = pages ++ rest ->
    ends (ITree.iter (onScan self)
            (paramsAfter params pages, items ++ flat_map pageItems pages))
         (answered w rest (loopRequests (client self) params pages)) w2 r ->
    ends (ITree.iter (onScan self) (params, items)) w w2 r.
Proof.
  induction pages as [|c pages IH]; intros params items w w2 rest r Hall Hin Hnext.
  - simpl in Hnext. rewrite app_nil_r in Hnext.
    unfold answered in Hnext. rewrite app_nil_r in Hnext.
    simpl in Hin. rewrite <- Hin in Hnext. now destruct w.
  - inversion Hall as [|? ? Hc Hall']; subst.
    destruct (morePage_inv c Hc) as (Hok & Hobj & Htok).
    pose proof (ends_onScan_page self params items w c (pages ++ rest) Hin Hok Hobj)
      as Hstep.
    rewrite Htok in Hstep.
    eapply ends_iter_again; [exact Hstep|].
    apply (IH _ _ _ w2 rest r Hall'); [reflexivity|].
    rewrite answered_answered, concat_pageItems, <- app_assoc.
    exact Hnext.
Qed.

Lemma loopRequests_snoc (c : DocumentClient) (responses : list completion) :
  forall (params : obj) (r : completion),
    loopRequests c params (responses ++ [r])
    = loopRequests c params responses
        ++ [mkRequest c Scan (paramsAfter params responses)].
Proof.
  induction responses as [|r0 responses IH]; intros params r; simpl.
  - reflexivity.
  - now rewrite IH.
Qed.

Lemma loopRequests_scanRequests (c : DocumentClient) (tableName : value)
    (responses : list completion) :
  loopRequests c [("TableName", tableName)] responses
  = scanRequests c tableName responses.
Proof.
  destruct responses as [|r responses]; [reflexivity|].
  simpl loopRequests. unfold scanRequests. f_equal.
  revert r. induction responses as [|r' responses IH]; intros r.
  - reflexivity.
  - simpl loopRequests. rewrite (IH r'). reflexivity.
Qed.

Lemma ends_getItem (self : DynamoDBDocumentClient) (tableName key : value)
    (w : World) (r : completion) (rest : list completion) :
  inbox w = r :: rest ->
  ends (getItem self tableName key) w
       (answered w rest
          [mkRequest (client self) Get [("TableName", tableName); ("Key", key)]])
       (settle r).
Proof.
  intros H. unfold getItem. now apply ends_single.
Qed.

Lemma ends_putItem (self : DynamoDBDocumentClient) (tableName item : value)
    (expr comparison : option obj)
    (w : World) (r : completion) (rest : list completion) :
  inbox w = r :: rest ->
  ends (putItem self tableName item expr comparison) w
       (answered w rest
          [mkRequest (client self) Put
             (attachCondition [("TableName", tableName); ("Item", item)]
                              expr comparison)])
       (settle r).
Proof.
  intros H. unfold putItem. now apply ends_single.
Qed.

Lemma ends_deleteItem (self : DynamoDBDocumentClient) (tableName key : value)
    (expr comparison : option obj)
    (w : World) (r : completion) (rest : list completion) :
  inbox w = r :: rest ->
  ends (deleteItem self tableName key expr comparison) w
       (answered w rest
          [mkRequest (client self) Delete
             (attachCondition [("TableName", tableName); ("Key", key)]
                              expr comparison)])
       (settle r).
Proof.
  intros H. unfold deleteItem. now apply ends_single.
Qed.

(** The paginated scan over pages that carry a token, then a failure. *)
Lemma ends_scan_failed (self : DynamoDBDocumentClient) (tableName : value)
    (pages : list completion) (bad : completion) (w : World)
    (rest : list completion) :
  Forall (fun c => morePage c = true) pages ->
  failed bad = true ->
  inbox w = pages ++ bad :: rest ->
  ends (scanTable self tableName true) w
       (answered w rest (scanRequests (client self) tableName (pages ++ [bad])))
       (Rejected (err bad)).
Proof.
  intros Hall Hbad Hin. unfold scanTable. simpl negb. cbv iota.
  apply (ends_scan_pages self pages _ _ w _ (bad :: rest) _ Hall Hin).
  apply ends_iter_done.
  pose proof (ends_onScan_failed self
                (paramsAfter [("TableName", tableName)] pages)
                ([] ++ flat_map pageItems pages)
                (answered w (bad :: rest)
                   (loopRequests (client self) [("TableName", tableName)] pages))
                bad rest eq_refl Hbad) as Hstep.
  rewrite answered_answered in Hstep.
  rewrite <- (loopRequests_snoc _ _ _ bad), !loopRequests_scanRequests in Hstep.
  rewrite loopRequests_scanRequests.
  exact Hstep.
Qed.

(* ===================================================================== *)
(** * Properties of the operations *)
(* ===================================================================== *)

(** C3. When the scan responses are a finite sequence of pages, every page
    but the last carrying a continuation token ([LastEvaluatedKey]) and the
    last carrying none, [scanTable(table, true)] issues one scan request
    per page, one after the other: the first names the table, each later
    one also carries the token of the response before it as
    [ExclusiveStartKey]. It resolves with the items of all the pages,
    concatenated in request order, and stops at the page without a token:
    the completions after it stay in the inbox. *)
Theorem scanTable_paginated_collects_pages
    (self : DynamoDBDocumentClient) (tableName : value)
    (pages : list completion) (last : completion) (w : World)
    (rest : list completion) :
  Forall (fun c => morePage c = true) pages ->
  lastPage last = true ->
  inbox w = pages ++ last :: rest ->
  ends (scanTable self tableName true) w
       (mkWorld (config w) rest
          (issued w ++ scanRequests (client self) tableName (pages ++ [last])))
       (Resolved (VArr (flat_map pageItems (pages ++ [last])))).
Proof.
  intros Hall Hlast Hin.
  change (mkWorld (config w) rest
            (issued w ++ scanRequests (client self) tableName (pages ++ [last])))
    with (answered w rest (scanRequests (client self) tableName (pages ++ [last]))).
  unfold scanTable. simpl negb. cbv iota.
  destruct (lastPage_inv last Hlast) as (Hok & Hobj & Htok).
  apply (ends_scan_pages self pages _ _ w _ (last :: rest) _ Hall Hin).
  apply ends_iter_done.
  pose proof (ends_onScan_page self
                (paramsAfter [("TableName", tableName)] pages)
                ([] ++ flat_map pageItems pages)
                (answered w (last :: rest)
                   (loopRequests (client self) [("TableName", tableName)] pages))
                last rest eq_refl Hok Hobj) as Hstep.
  rewrite Htok, answered_answered, concat_pageItems in Hstep.
  rewrite <- (loopRequests_snoc _ _ _ last), !loopRequests_scanRequests in Hstep.
  rewrite loopRequests_scanRequests.
  rewrite flat_map_app. simpl flat_map. rewrite app_nil_r.
  exact Hstep.
Qed.

Lemma scanTable_paginated_collects_pages_witness :
  let self := mkWrapper (mkClient (VStr "eu-west-1") VUndefined) in
  let a := VObj [("id", VStr "a")] in
  let b := VObj [("id", VStr "b")] in
  let c := VObj [("id", VStr "c")] in
  let page1 := mkCompletion VNull (VObj [("Items", VArr [a; b]); ("LastEvaluatedKey", b)]) in
  let page2 := mkCompletion VNull (VObj [("Items", VArr [c])]) in
  let w := mkWorld [] [page1; page2] [] in
  Forall (fun c => morePage c = true) [page1] /\
  lastPage page2 = true /\
  inbox w = [page1] ++ page2 :: [] /\
  ends (scanTable self (VStr "T") true) w
       (mkWorld [] []
          [mkRequest (client self) Scan [("TableName", VStr "T")];
           mkRequest (client self) Scan
             [("TableName", VStr "T"); ("ExclusiveStartKey", b)]])
       (Resolved (VArr [a; b; c])).
Proof.
  intros self a b c page1 page2 w.
  assert (H1 : Forall (fun c => morePage c = true) [page1])
    by (repeat constructor).
  assert (H2 : lastPage page2 = true) by reflexivity.
  assert (H3 : inbox w = [page1] ++ page2 :: []) by reflexivity.
  split; [exact H1 | split; [exact H2 | split; [exact H3|]]].
  exact (scanTable_paginated_collects_pages self (VStr "T") [page1] page2 w [] H1 H2 H3).
Defined.

(** C4. [scanTable(table, false)] issues exactly one scan request, which
    names the table, and resolves with the [Items] of the response to it,
    the first page. This holds whatever else the page carries, a
    continuation token included, and whatever further pages the service
    holds ready: they are not asked for. *)
Theorem scanTable_unpaginated_first_page
    (self : DynamoDBDocumentClient) (tableName : value)
    (first : completion) (d : obj) (w : World) (rest : list completion) :
  inbox w = first :: rest ->
  failed first = false ->
  data first = VObj d ->
  ends (scanTable self tableName false) w
       (mkWorld (config w) rest
          (issued w ++ [mkRequest (client self) Scan [("TableName", tableName)]]))
       (Resolved (get d "Items")).
Proof.
  intros Hin Hok Hd.
  pose proof (ends_scan_once self tableName w first rest Hin) as H.
  unfold failed in Hok. rewrite Hok, Hd in H. exact H.
Qed.

Lemma scanTable_unpaginated_first_page_witness :
  let self := mkWrapper (mkClient (VStr "eu-west-1") VUndefined) in
  let a := VObj [("id", VStr "a")] in
  let b := VObj [("id", VStr "b")] in
  let c := VObj [("id", VStr "c")] in
  let d1 := [("Items", VArr [a; b]); ("LastEvaluatedKey", b)] in
  let page1 := mkCompletion VNull (VObj d1) in
  let page2 := mkCompletion VNull (VObj [("Items", VArr [c])]) in
  let w := mkWorld [] [page1; page2] [] in
  inbox w = page1 :: [page2] /\
  failed page1 = false /\
  data page1 = VObj d1 /\
  ends (scanTable self (VStr "T") false) w
       (mkWorld [] [page2] [mkRequest (client self) Scan [("TableName", VStr "T")]])
       (Resolved (VArr [a; b])).
Proof.
  intros self a b c d1 page1 page2 w.
  split; [reflexivity | split; [reflexivity | split; [reflexivity|]]].
  exact (scanTable_unpaginated_first_page self (VStr "T") page1 d1 w [page2]
           eq_refl eq_refl eq_refl).
Defined.

(** C5. When a page request of a paginated scan fails, after any number of
    pages that were received, [scanTable(table, true)] rejects with the
    error of that request. The outcome is the rejection alone: it holds the
    error and nothing of the items gathered from the pages before, and no
    request follows the failed one. *)
Theorem scanTable_paginated_all_or_nothing
    (self : DynamoDBDocumentClient) (tableName : value)
    (pages : list completion) (bad : completion) (w : World)
    (rest : list completion) :
  Forall (fun c => morePage c = true) pages ->
  failed bad = true ->
  inbox w = pages ++ bad :: rest ->
  ends (scanTable self tableName true) w
       (mkWorld (config w) rest
          (issued w ++ scanRequests (client self) tableName (pages ++ [bad])))
       (Rejected (err bad)).
Proof.
  intros Hall Hbad Hin.
  exact (ends_scan_failed self tableName pages bad w rest Hall Hbad Hin).
Qed.

Lemma scanTable_paginated_all_or_nothing_witness :
  let self := mkWrapper (mkClient (VStr "eu-west-1") VUndefined) in
  let a := VObj [("id", VStr "a")] in
  let b := VObj [("id", VStr "b")] in
  let page1 := mkCompletion VNull (VObj [("Items", VArr [a; b]); ("LastEvaluatedKey", b)]) in
  let throttled := VObj [("code", VStr "ProvisionedThroughputExceededException")] in
  let bad := mkCompletion throttled VNull in
  let w := mkWorld [] [page1; bad] [] in
  Forall (fun c => morePage c = true) [page1] /\
  failed bad = true /\
  inbox w = [page1] ++ bad :: [] /\
  ends (scanTable self (VStr "T") true) w
       (mkWorld [] []
          [mkRequest (client self) Scan [("TableName", VStr "T")];
           mkRequest (client self) Scan
             [("TableName", VStr "T"); ("ExclusiveStartKey", b)]])
       (Rejected throttled).
Proof.
  intros self a b page1 throttled bad w.
  assert (H1 : Forall (fun c => morePage c = true) [page1])
    by (repeat constructor).
  split; [exact H1 | split; [reflexivity | split; [reflexivity|]]].
  exact (scanTable_paginated_all_or_nothing self (VStr "T") [page1] bad w []
           H1 eq_refl eq_refl).
Defined.

(** C6. An error the client delivers (a callback whose [err] is set)
    reaches the caller as it is: [getItem], [putItem], [deleteItem] and
    [scanTable], unpaginated or paginated and then on any page, reject with
    exactly the delivered [err] value. Nothing stands in for it, and the
    failed request is the last one the operation issues: no request is
    repeated, the completions that follow stay in the inbox. *)
Theorem errors_reach_the_caller_unchanged
    (self : DynamoDBDocumentClient) (tableName key item : value)
    (expr comparison : option obj) (bad : completion)
    (w : World) (rest : list completion)
    (pages : list completion) (wp : World) :
  failed bad = true ->
  inbox w = bad :: rest ->
  Forall (fun c => morePage c = true) pages ->
  inbox wp = pages ++ bad :: rest ->
  ends (getItem self tableName key) w
       (mkWorld (config w) rest
          (issued w
             ++ [mkRequest (client self) Get [("TableName", tableName); ("Key", key)]]))
       (Rejected (err bad)) /\
  ends (putItem self tableName item expr comparison) w
       (mkWorld (config w) rest
          (issued w
             ++ [mkRequest (client self) Put
                   (attachCondition [("TableName", tableName); ("Item", item)]
                                    expr comparison)]))
       (Rejected (err bad)) /\
  ends (deleteItem self tableName key expr comparison) w
       (mkWorld (config w) rest
          (issued w
             ++ [mkRequest (client self) Delete
                   (attachCondition [("TableName", tableName); ("Key", key)]
                                    expr comparison)]))
       (Rejected (err bad)) /\
  ends (scanTable self tableName false) w
       (mkWorld (config w) rest
          (issued w ++ [mkRequest (client self) Scan [("TableName", tableName)]]))
       (Rejected (err bad)) /\
  ends (scanTable self tableName true) wp
       (mkWorld (config wp) rest
          (issued wp ++ scanRequests (client self) tableName (pages ++ [bad])))
       (Rejected (err bad)).
Proof.
  intros Hbad Hin Hall Hinp.
  pose proof (settle_failed bad Hbad) as Hsettle.
  split; [|split; [|split; [|split]]].
  - rewrite <- Hsettle. now apply ends_getItem.
  - rewrite <- Hsettle. now apply ends_putItem.
  - rewrite <- Hsettle. now apply ends_deleteItem.
  - pose proof (ends_scan_once self tableName w bad rest Hin) as H.
    unfold failed in Hbad. rewrite Hbad in H. exact H.
  - now apply ends_scan_failed.
Qed.

Lemma errors_reach_the_caller_unchanged_witness :
  let self := mkWrapper (mkClient (VStr "eu-west-1") VUndefined) in
  let key := VObj [("id", VStr "a")] in
  let item := VObj [("id", VStr "a"); ("v", VNum 1)] in
  let page1 := mkCompletion VNull (VObj [("Items", VArr [item]); ("LastEvaluatedKey", key)]) in
  let denied := VObj [("code", VStr "AccessDeniedException")] in
  let bad := mkCompletion denied VNull in
  let w := mkWorld [] [bad] [] in
  let wp := mkWorld [] [page1; bad] [] in
  failed bad = true /\
  inbox w = bad :: [] /\
  Forall (fun c => morePage c = true) [page1] /\
  inbox wp = [page1] ++ bad :: [] /\
  ends (getItem self (VStr "T") key) w
       (mkWorld [] []
          [mkRequest (client self) Get [("TableName", VStr "T"); ("Key", key)]])
       (Rejected denied) /\
  ends (scanTable self (VStr "T") true) wp
       (mkWorld [] []
          [mkRequest (client self) Scan [("TableName", VStr "T")];
           mkRequest (client self) Scan
             [("TableName", VStr "T"); ("ExclusiveStartKey", key)]])
       (Rejected denied).
Proof.
  intros self key item page1 denied bad w wp.
  assert (H3 : Forall (fun c => morePage c = true) [page1])
    by (repeat constructor).
  split; [reflexivity | split; [reflexivity | split; [exact H3 | split; [reflexivity|]]]].
  pose proof (errors_reach_the_caller_unchanged self (VStr "T") key item None None
                bad w [] [page1] wp eq_refl eq_refl H3 eq_refl) as H.
  split; [exact (proj1 H) | exact (proj2 (proj2 (proj2 (proj2 H))))].
Defined.

(** C7. A read of a key under which nothing is stored is answered by the
    service without error and with an empty payload ([noItem]);
    [getItem] then resolves with that empty result, and in no other way: it
    does not reject. *)
Theorem getItem_no_item_resolves_empty
    (self : DynamoDBDocumentClient) (tableName key : value)
    (w : World) (rest : list completion) :
  inbox w = noItem :: rest ->
  ends (getItem self tableName key) w
       (mkWorld (config w) rest
          (issued w
             ++ [mkRequest (client self) Get [("TableName", tableName); ("Key", key)]]))
       (Resolved (VObj [])) /\
  (forall (w' : World) (o : outcome),
      ends (getItem self tableName key) w w' o -> o = Resolved (VObj [])).
Proof.
  intros Hin.
  pose proof (ends_getItem self tableName key w noItem rest Hin) as H.
  split; [exact H|].
  intros w' o Ho. now destruct (ends_unique _ _ _ _ _ _ Ho H).
Qed.

Lemma getItem_no_item_resolves_empty_witness :
  let self := mkWrapper (mkClient (VStr "eu-west-1") VUndefined) in
  let key := VObj [("id", VStr "missing")] in
  let w := mkWorld [] [noItem] [] in
  inbox w = noItem :: [] /\
  ends (getItem self (VStr "T") key) w
       (mkWorld [] []
          [mkRequest (client self) Get [("TableName", VStr "T"); ("Key", key)]])
       (Resolved (VObj [])).
Proof.
  intros self key w. split; [reflexivity|].
  exact (proj1 (getItem_no_item_resolves_empty self (VStr "T") key w [] eq_refl)).
Defined.

(** C10. When exactly one of the two condition arguments of [putItem] or
    [deleteItem] is given and the other is [null] or left out, the request
    is the one of the call without any condition argument: its parameters
    are the table name and the item (or key) alone, with no
    [ConditionExpression], [ExpressionAttributeNames] or
    [ExpressionAttributeValues], and the operation is the same tree as the
    unconditional call. *)
Theorem one_condition_argument_is_ignored
    (self : DynamoDBDocumentClient) (tableName x : value)
    (expr comparison : option obj)
    (w : World) (r : completion) (rest : list completion) :
  (expr = None /\ comparison <> None) \/ (expr <> None /\ comparison = None) ->
  inbox w = r :: rest ->
  let putParams := attachCondition [("TableName", tableName); ("Item", x)] expr comparison in
  let deleteParams := attachCondition [("TableName", tableName); ("Key", x)] expr comparison in
  putParams = [("TableName", tableName); ("Item", x)] /\
  deleteParams = [("TableName", tableName); ("Key", x)] /\
  lookup putParams "ConditionExpression" = None /\
  lookup putParams "ExpressionAttributeNames" = None /\
  lookup putParams "ExpressionAttributeValues" = None /\
  lookup deleteParams "ConditionExpression" = None /\
  lookup deleteParams "ExpressionAttributeNames" = None /\
  lookup deleteParams "ExpressionAttributeValues" = None /\
  putItem self tableName x expr comparison = putItem self tableName x None None /\
  deleteItem self tableName x expr comparison = deleteItem self tableName x None None /\
  ends (putItem self tableName x expr comparison) w
       (mkWorld (config w) rest
          (issued w
             ++ [mkRequest (client self) Put [("TableName", tableName); ("Item", x)]]))
       (settle r) /\
  ends (deleteItem self tableName x expr comparison) w
       (mkWorld (config w) rest
          (issued w
             ++ [mkRequest (client self) Delete [("TableName", tableName); ("Key", x)]]))
       (settle r).
Proof.
  intros Hone Hin putParams deleteParams.
  assert (Hattach : forall params, attachCondition params expr comparison = params).
  { intros params. destruct Hone as [[-> _] | [_ ->]]; [reflexivity|].
    now destruct expr. }
  assert (Hput : putItem self tableName x expr comparison
                 = putItem self tableName x None None)
    by (unfold putItem; now rewrite Hattach).
  assert (Hdel : deleteItem self tableName x expr comparison
                 = deleteItem self tableName x None None)
    by (unfold deleteItem; now rewrite Hattach).
  unfold putParams, deleteParams. rewrite !Hattach.
  do 8 (split; [reflexivity|]).
  split; [exact Hput | split; [exact Hdel | split]].
  - rewrite Hput. now apply (ends_putItem self tableName x None None).
  - rewrite Hdel. now apply (ends_deleteItem self tableName x None None).
Qed.

Lemma one_condition_argument_is_ignored_witness :
  let self := mkWrapper (mkClient (VStr "eu-west-1") VUndefined) in
  let item := VObj [("id", VStr "a"); ("v", VNum 1)] in
  let expr := Some [("v", VNum 0)] in
  let w := mkWorld [] [written] [] in
  ((expr = None /\ @None obj <> None) \/ (expr <> None /\ @None obj = None)) /\
  inbox w = written :: [] /\
  putItem self (VStr "T") item expr None = putItem self (VStr "T") item None None /\
  ends (putItem self (VStr "T") item expr None) w
       (mkWorld [] []
          [mkRequest (client self) Put [("TableName", VStr "T"); ("Item", item)]])
       (Resolved (VObj [])).
Proof.
  intros self item expr w.
  assert (H1 : (expr = None /\ @None obj <> None) \/ (expr <> None /\ @None obj = None))
    by (right; split; [discriminate | reflexivity]).
  split; [exact H1 | split; [reflexivity|]].
  pose proof (one_condition_argument_is_ignored self (VStr "T") item expr None
                w written [] H1 eq_refl) as H.
  cbv zeta in H.
  destruct H as (_ & _ & _ & _ & _ & _ & _ & _ & Hput & _ & Hends & _).
  split; [exact Hput | exact Hends].
Defined.

Lemma buildConditionExpression_missing_operator_witness :
  let expr := [("id", VStr "a"); ("v", VNum 1)] in
  let comparison := [("id", VStr "=")] in
  wf expr /\
  In "v" (keys expr) /\
  lookup comparison "v" = None /\
  inherited "v" = None /\
  (exists before after : list string,
      keys expr = before ++ "v" :: after /\
      expression (buildConditionExpression expr comparison)
      = String.concat " AND "
          (List.map (clause comparison) before
             ++ ("#" +++ "v" +++ " undefined " +++ ":" +++ "v")
             :: List.map (clause comparison) after)) /\
  get (names (buildConditionExpression expr comparison)) ("#" +++ "v") = VStr "v" /\
  get (values (buildConditionExpression expr comparison)) (":" +++ "v") = get expr "v".
Proof.
  intros expr comparison.
  assert (Hwf : wf expr).
  { unfold wf, expr. simpl. repeat constructor; simpl; intuition discriminate. }
  assert (Hin : In "v" (keys expr)) by (simpl; tauto).
  split; [exact Hwf | split; [exact Hin | split; [reflexivity | split; [reflexivity|]]]].
  exact (buildConditionExpression_missing_operator expr comparison "v"
           Hwf Hin eq_refl eq_refl).
Defined.

(* ===================================================================== *)
(** * Construction and the shared configuration *)
(* ===================================================================== *)

Lemma ends_constructor (region endpoint : value) (w : World) :
  ends (constructor region endpoint) w
       (mkWorld (spread (config w) (configPatch region endpoint)) (inbox w) (issued w))
       (mkWrapper (clientOf (spread (config w) (configPatch region endpoint)))).
Proof.
  unfold constructor.
  eapply ends_bind.
  - unfold ends, run. rewrite interp_state_trigger. cbn. reflexivity.
  - eapply ends_bind; [|apply ends_ret].
    unfold ends, run. rewrite interp_state_trigger. cbn. reflexivity.
Qed.

(** The region and endpoint in force after the update: the supplied value
    when there is one, else the one the configuration had. *)
Lemma region_after (region endpoint : value) (cfg : obj) :
  get (spread cfg (configPatch region endpoint)) "region"
  = if truthy region then region else get cfg "region".
Proof.
  unfold configPatch, guarded.
  destruct (truthy region), (truthy endpoint); simpl; try reflexivity.
  - rewrite get_set_other by discriminate. apply get_set_same.
  - apply get_set_same.
  - now rewrite get_set_other by discriminate.
Qed.


Lemma configPatch_dynamodb (region endpoint : value) (cfg : obj) :
  get (spread cfg (configPatch region endpoint)) "dynamodb"
  = if truthy endpoint then VObj [("endpoint", endpoint)] else get cfg "dynamodb".
Proof.
  unfold configPatch, guarded.
  destruct (truthy region), (truthy endpoint); simpl; try reflexivity.
  - apply get_set_same.
  - now rewrite get_set_other by discriminate.
  - apply get_set_same.
Qed.





(** C2, at [putItem("T", {id: "a", v: 1})] followed by
    [getItem("T", {id: "a"})], the service applying the write and then
    finding the item: [getItem] resolves with the payload of the read,
    [{ Item: {id: "a", v: 1} }], which is not the item. *)
Lemma putItem_then_getItem_resolves_with_payload :
  let self := mkWrapper (mkClient (VStr "eu-west-1") VUndefined) in
  let item := VObj [("id", VStr "a"); ("v", VNum 1)] in
  let key := VObj [("id", VStr "a")] in
  let w := mkWorld [] [written; found item] [] in
  let program :=
    _ <- putItem self (VStr "T") item None None;;
    getItem self (VStr "T") key in
  let w' :=
    mkWorld [] []
      [mkRequest (client self) Put [("TableName", VStr "T"); ("Item", item)];
       mkRequest (client self) Get [("TableName", VStr "T"); ("Key", key)]] in
  exec 5 program w = Some (w', Resolved (VObj [("Item", item)])) /\
  ends program w w' (Resolved (VObj [("Item", item)])) /\
  Resolved (VObj [("Item", item)]) <> Resolved item.
Proof.
  intros self item key w program w'.
  assert (Hexec : exec 5 program w = Some (w', Resolved (VObj [("Item", item)])))
    by (vm_compute; reflexivity).
  split; [exact Hexec | split; [|discriminate]].
  exact (exec_ends 5 program w w' _ Hexec).
Qed.

(* ===================================================================== *)
(** * Runs, read backwards *)
(* ===================================================================== *)

Lemma ends_ret_inv {R : Type} (r r' : R) (w w' : World) :
  ends (Ret r) w w' r' -> w' = w /\ r' = r.
Proof.
  intros H. exact (ends_unique _ _ _ _ _ _ H (ends_ret r w)).
Qed.

Lemma ends_bind_inv {A R : Type} (t : itree sdkE A) (k : A -> itree sdkE R)
    (w w2 : World) (r : R) :
  ends (ITree.bind t k) w w2 r ->
  exists (w1 : World) (a : A), ends t w w1 a /\ ends (k a) w1 w2 r.
Proof.
  unfold ends, run. intros H.
  rewrite interp_state_bind in H.
  apply eutt_inv_bind_ret in H. destruct H as ([w1 a] & Ht & Hk).
  exists w1, a. split; [exact Ht | exact Hk].
Qed.

(** A call ends only by a completion: with an empty inbox the callback is
    never invoked. *)
Lemma ends_call_inv (c : DocumentClient) (m : method) (p : obj)
    (w w' : World) (r : completion) :
  ends (ITree.trigger (Call c m p)) w w' r ->
  exists rest, inbox w = r :: rest /\ w' = answered w rest [mkRequest c m p].
Proof.
  unfold ends, run. intros H.
  rewrite interp_state_trigger in H. unfold sdk, step in H.
  destruct (inbox w) as [|r0 rest].
  - exfalso. exact (eutt_spin_Ret_abs _ H).
  - apply eutt_inv_Ret in H. inversion H; subst. now exists rest.
Qed.

Lemma ends_iter_inv {I R : Type} (body : I -> itree sdkE (I + R))
    (i : I) (w w2 : World) (r : R) :
  ends (ITree.iter body i) w w2 r ->
  exists (w1 : World) (x : I + R),
    ends (body i) w w1 x /\
    match x with
    | inl i' => ends (ITree.iter body i') w1 w2 r
    | inr r' => w2 = w1 /\ r = r'
    end.
Proof.
  unfold ends, run. intros H.
  rewrite unfold_iter, interp_state_bind in H.
  apply eutt_inv_bind_ret in H. destruct H as ([w1 x] & Hbody & Hk).
  exists w1, x. split; [exact Hbody|].
  destruct x as [i' | r']; cbn in Hk.
  - now rewrite interp_state_tau, tau_eutt in Hk.
  - rewrite interp_state_ret in Hk. apply eutt_inv_Ret in Hk. now inversion Hk.
Qed.

(** A single-request operation ends only by the completion of its
    request. *)
Lemma ends_single_inv (c : DocumentClient) (m : method) (p : obj)
    (w w' : World) (o : outcome) :
  ends (x <- ITree.trigger (Call c m p);; Ret (settle x)) w w' o ->
  exists r rest,
    inbox w = r :: rest /\ w' = answered w rest [mkRequest c m p] /\ o = settle r.
Proof.
  intros H. apply ends_bind_inv in H. destruct H as (w1 & r & Hcall & Hret).
  apply ends_call_inv in Hcall. destruct Hcall as (rest & Hin & ->).
  apply ends_ret_inv in Hret. destruct Hret as [-> ->].
  now exists r, rest.
Qed.

(* ===================================================================== *)
(** * More on the condition builder *)
(* ===================================================================== *)

Lemma concat_app sep (c1 : string) (l1 : list string) (c2 : string) (l2 : list string) :
  String.concat sep ((c1 :: l1) ++ c2 :: l2)
  = String.concat sep (c1 :: l1) +++ sep +++ String.concat sep (c2 :: l2).
Proof.
  revert c1. induction l1 as [|c l1 IH]; intros c1.
  - reflexivity.
  - change (String.concat sep ((c1 :: c :: l1) ++ c2 :: l2))
      with (c1 +++ sep +++ String.concat sep ((c :: l1) ++ c2 :: l2)).
    rewrite IH.
    change (String.concat sep (c1 :: c :: l1))
      with (c1 +++ sep +++ String.concat sep (c :: l1)).
    now rewrite !append_assoc.
Qed.

Lemma build_fold_operators (expr comparison comparison' : obj) (ks : list string) :
  (forall k, In k ks -> get comparison k = get comparison' k) ->
  forall acc,
    fold_left (buildStep expr comparison) ks acc
    = fold_left (buildStep expr comparison') ks acc.
Proof.
  induction ks as [|k ks IH]; intros Hsame acc; simpl; [reflexivity|].
  unfold buildStep at 2 4. rewrite (Hsame k (or_introl eq_refl)).
  apply IH. intros k' Hk'. apply Hsame. now right.
Qed.

(** X1. The builder reads the operator object at the keys of the
    comparison-value object and nowhere else: operators under other keys,
    and the order of the operators, do not show in what it returns. *)
Theorem buildConditionExpression_reads_operators_of_keys
    (expr comparison comparison' : obj) :
  (forall k, In k (keys expr) -> get comparison k = get comparison' k) ->
  buildConditionExpression expr comparison = buildConditionExpression expr comparison'.
Proof.
  intros Hsame. unfold buildConditionExpression.
  now apply build_fold_operators.
Qed.

Lemma buildConditionExpression_reads_operators_of_keys_witness :
  let expr := [("id", VStr "a"); ("v", VNum 1)] in
  let comparison := [("id", VStr "="); ("v", VStr "<>")] in
  let comparison' := [("w", VStr ">"); ("v", VStr "<>"); ("id", VStr "=")] in
  (forall k, In k (keys expr) -> get comparison k = get comparison' k) /\
  buildConditionExpression expr comparison = buildConditionExpression expr comparison'.
Proof.
  intros expr comparison comparison'.
  assert (H : forall k, In k (keys expr) -> get comparison k = get comparison' k).
  { intros k [<- | [<- | []]]; reflexivity. }
  split; [exact H|].
  exact (buildConditionExpression_reads_operators_of_keys expr comparison comparison' H).
Defined.

(** X2. The comparison values reach the values object only: two
    comparison-value objects with the same keys give the same expression
    string and the same names object, whatever their values. The keys, on
    the other hand, are written into the string as they are. *)
Theorem buildConditionExpression_values_stay_out_of_expression
    (expr expr' comparison : obj) :
  keys expr = keys expr' ->
  expression (buildConditionExpression expr comparison)
  = expression (buildConditionExpression expr' comparison) /\
  names (buildConditionExpression expr comparison)
  = names (buildConditionExpression expr' comparison) /\
  expression (buildConditionExpression expr comparison)
  = String.concat " AND " (List.map (clause comparison) (keys expr)).
Proof.
  intros Hkeys. unfold buildConditionExpression.
  rewrite (build_expression expr comparison (keys expr) []
             (mkCondition "" [] []) (Forall_nil _) eq_refl).
  rewrite (build_expression expr' comparison (keys expr') []
             (mkCondition "" [] []) (Forall_nil _) eq_refl).
  rewrite !build_names, Hkeys. simpl. auto.
Qed.

Lemma buildConditionExpression_values_stay_out_of_expression_witness :
  let expr := [("id", VStr "a"); ("v", VNum 1)] in
  let expr' := [("id", VStr "x AND y"); ("v", VArr [VNull])] in
  let comparison := [("id", VStr "="); ("v", VStr "<>")] in
  keys expr = keys expr' /\
  expression (buildConditionExpression expr comparison)
  = expression (buildConditionExpression expr' comparison) /\
  names (buildConditionExpression expr comparison)
  = names (buildConditionExpression expr' comparison) /\
  expression (buildConditionExpression expr comparison)
  = String.concat " AND " (List.map (clause comparison) (keys expr)).
Proof.
  intros expr expr' comparison. split; [reflexivity|].
  exact (buildConditionExpression_values_stay_out_of_expression
           expr expr' comparison eq_refl).
Defined.

Lemma wf_app_l (o1 o2 : obj) : wf (o1 ++ o2) -> wf o1.
Proof.
  unfold wf, keys. rewrite map_app. intros H.
  induction (List.map (@Datatypes.fst string value) o1) as [|k ks IH]; [constructor|].
  simpl in H. inversion H as [|? ? Hk Hrest]; subst.
  constructor; [|now apply IH].
  intros Hin. apply Hk. apply in_or_app. now left.
Qed.

Lemma wf_app_r (o1 o2 : obj) : wf (o1 ++ o2) -> wf o2.
Proof.
  unfold wf, keys. rewrite map_app.
  induction (List.map (@Datatypes.fst string value) o1) as [|k ks IH]; simpl; intros H.
  - exact H.
  - inversion H; subst. now apply IH.
Qed.

(** X3. The builder over two groups of conditions, one after the other: the
    expression is the two expressions joined by one more " AND ", the names
    and the values are those of the first group followed by those of the
    second. *)
Theorem buildConditionExpression_app (expr1 expr2 comparison : obj) :
  wf (expr1 ++ expr2) ->
  expr1 <> [] ->
  expr2 <> [] ->
  let whole := buildConditionExpression (expr1 ++ expr2) comparison in
  let part1 := buildConditionExpression expr1 comparison in
  let part2 := buildConditionExpression expr2 comparison in
  expression whole = expression part1 +++ " AND " +++ expression part2 /\
  names whole = names part1 ++ names part2 /\
  values whole = values part1 ++ values part2.
Proof.
  intros Hwf Hne1 Hne2 whole part1 part2.
  destruct (build_result (expr1 ++ expr2) comparison Hwf) as (He & Hn & Hv).
  destruct (build_result expr1 comparison (wf_app_l _ _ Hwf)) as (He1 & Hn1 & Hv1).
  destruct (build_result expr2 comparison (wf_app_r _ _ Hwf)) as (He2 & Hn2 & Hv2).
  fold whole in He, Hn, Hv. fold part1 in He1, Hn1, Hv1. fold part2 in He2, Hn2, Hv2.
  rewrite He, Hn, Hv, He1, Hn1, Hv1, He2, Hn2, Hv2.
  unfold keys. rewrite !map_app.
  split; [|split; reflexivity].
  destruct expr1 as [|kv1 expr1]; [contradiction|].
  destruct expr2 as [|kv2 expr2]; [contradiction|].
  simpl List.map. apply concat_app.
Qed.

Lemma buildConditionExpression_app_witness :
  let expr1 := [("id", VStr "a")] in
  let expr2 := [("v", VNum 1); ("w", VNum 2)] in
  let comparison := [("id", VStr "="); ("v", VStr "<>"); ("w", VStr ">")] in
  wf (expr1 ++ expr2) /\ expr1 <> [] /\ expr2 <> [] /\
  expression (buildConditionExpression (expr1 ++ expr2) comparison)
  = expression (buildConditionExpression expr1 comparison)
      +++ " AND " +++ expression (buildConditionExpression expr2 comparison) /\
  names (buildConditionExpression (expr1 ++ expr2) comparison)
  = names (buildConditionExpression expr1 comparison)
      ++ names (buildConditionExpression expr2 comparison) /\
  values (buildConditionExpression (expr1 ++ expr2) comparison)
  = values (buildConditionExpression expr1 comparison)
      ++ values (buildConditionExpression expr2 comparison).
Proof.
  intros expr1 expr2 comparison.
  assert (Hwf : wf (expr1 ++ expr2)).
  { unfold wf. simpl. repeat constructor; simpl; intuition discriminate. }
  assert (H1 : expr1 <> []) by discriminate.
  assert (H2 : expr2 <> []) by discriminate.
  split; [exact Hwf | split; [exact H1 | split; [exact H2|]]].
  exact (buildConditionExpression_app expr1 expr2 comparison Hwf H1 H2).
Defined.

(* ===================================================================== *)
(** * More on the single-request operations *)
(* ===================================================================== *)

Lemma attachCondition_both (tableName x : value) (field : string)
    (expr comparison : obj) :
  wf expr ->
  attachCondition [("TableName", tableName); (field, x)] (Some expr) (Some comparison)
  = set (set (set [("TableName", tableName); (field, x)]
                  "ConditionExpression"
                  (VStr (String.concat " AND "
                           (List.map (clause comparison) (keys expr)))))
             "ExpressionAttributeNames"
             (VObj (List.map (fun k => ("#" +++ k, VStr k)) (keys expr))))
        "ExpressionAttributeValues"
        (VObj (List.map (fun kv => (":" +++ Datatypes.fst kv, Datatypes.snd kv)) expr)).
Proof.
  intros Hwf. unfold attachCondition.
  destruct (build_result expr comparison Hwf) as (He & Hn & Hv).
  cbv zeta. now rewrite He, Hn, Hv.
Qed.

(** X4. A conditional write or delete, both condition objects given: the one
    request carries the table and the item (or key) as before, followed by
    the builder's expression as [ConditionExpression], its names as
    [ExpressionAttributeNames] and its values as
    [ExpressionAttributeValues]; the promise is settled by the completion
    of that request. *)
Theorem conditional_request_carries_the_condition
    (self : DynamoDBDocumentClient) (tableName x : value)
    (expr comparison : obj) (w : World) (r : completion) (rest : list completion) :
  wf expr ->
  inbox w = r :: rest ->
  let condition :=
    [("ConditionExpression",
      VStr (String.concat " AND " (List.map (clause comparison) (keys expr))));
     ("ExpressionAttributeNames",
      VObj (List.map (fun k => ("#" +++ k, VStr k)) (keys expr)));
     ("ExpressionAttributeValues",
      VObj (List.map (fun kv => (":" +++ Datatypes.fst kv, Datatypes.snd kv)) expr))] in
  ends (putItem self tableName x (Some expr) (Some comparison)) w
       (mkWorld (config w) rest
          (issued w
             ++ [mkRequest (client self) Put
                   ([("TableName", tableName); ("Item", x)] ++ condition)]))
       (settle r) /\
  ends (deleteItem self tableName x (Some expr) (Some comparison)) w
       (mkWorld (config w) rest
          (issued w
             ++ [mkRequest (client self) Delete
                   ([("TableName", tableName); ("Key", x)] ++ condition)]))
       (settle r).
Proof.
  intros Hwf Hin condition. split.
  - pose proof (ends_putItem self tableName x (Some expr) (Some comparison)
                  w r rest Hin) as H.
    rewrite (attachCondition_both tableName x "Item" expr comparison Hwf) in H.
    exact H.
  - pose proof (ends_deleteItem self tableName x (Some expr) (Some comparison)
                  w r rest Hin) as H.
    rewrite (attachCondition_both tableName x "Key" expr comparison Hwf) in H.
    exact H.
Qed.

Lemma conditional_request_carries_the_condition_witness :
  let self := mkWrapper (mkClient (VStr "eu-west-1") VUndefined) in
  let item := VObj [("id", VStr "a"); ("v", VNum 2)] in
  let expr := [("v", VNum 1)] in
  let comparison := [("v", VStr "=")] in
  let w := mkWorld [] [written] [] in
  wf expr /\
  inbox w = written :: [] /\
  ends (putItem self (VStr "T") item (Some expr) (Some comparison)) w
       (mkWorld [] []
          [mkRequest (client self) Put
             [("TableName", VStr "T"); ("Item", item);
              ("ConditionExpression", VStr "#v = :v");
              ("ExpressionAttributeNames", VObj [("#v", VStr "v")]);
              ("ExpressionAttributeValues", VObj [(":v", VNum 1)])]])
       (Resolved (VObj [])).
Proof.
  intros self item expr comparison w.
  assert (Hwf : wf expr).
  { unfold wf. simpl. repeat constructor; simpl; intuition discriminate. }
  split; [exact Hwf | split; [reflexivity|]].
  exact (proj1 (conditional_request_carries_the_condition self (VStr "T") item
                  expr comparison w written [] Hwf eq_refl)).
Defined.

(** X5. Two empty condition objects are a condition all the same: an object is
    truthy, so the request of [putItem] and of [deleteItem] carries an
    empty [ConditionExpression] and empty bindings, and is not the request
    of the call without condition arguments. *)
Theorem empty_condition_objects_are_attached
    (self : DynamoDBDocumentClient) (tableName x : value) (comparison : obj)
    (w : World) (r : completion) (rest : list completion) :
  inbox w = r :: rest ->
  let condition :=
    [("ConditionExpression", VStr "");
     ("ExpressionAttributeNames", VObj []);
     ("ExpressionAttributeValues", VObj [])] in
  ends (putItem self tableName x (Some []) (Some comparison)) w
       (mkWorld (config w) rest
          (issued w
             ++ [mkRequest (client self) Put
                   ([("TableName", tableName); ("Item", x)] ++ condition)]))
       (settle r) /\
  ends (deleteItem self tableName x (Some []) (Some comparison)) w
       (mkWorld (config w) rest
          (issued w
             ++ [mkRequest (client self) Delete
                   ([("TableName", tableName); ("Key", x)] ++ condition)]))
       (settle r) /\
  putItem self tableName x (Some []) (Some comparison)
  <> putItem self tableName x None None.
Proof.
  intros Hin condition.
  split; [exact (ends_putItem self tableName x (Some []) (Some comparison) w r rest Hin)|].
  split; [exact (ends_deleteItem self tableName x (Some []) (Some comparison) w r rest Hin)|].
  intros Heq.
  pose (w0 := mkWorld [] [written] []).
  pose proof (ends_putItem self tableName x (Some []) (Some comparison)
                w0 written [] eq_refl) as H1.
  pose proof (ends_putItem self tableName x None None w0 written [] eq_refl) as H2.
  rewrite Heq in H1.
  destruct (ends_unique _ _ _ _ _ _ H1 H2) as [Hw _].
  discriminate Hw.
Qed.

Lemma empty_condition_objects_are_attached_witness :
  let self := mkWrapper (mkClient (VStr "eu-west-1") VUndefined) in
  let key := VObj [("id", VStr "a")] in
  let w := mkWorld [] [written] [] in
  inbox w = written :: [] /\
  ends (deleteItem self (VStr "T") key (Some []) (Some [])) w
       (mkWorld [] []
          [mkRequest (client self) Delete
             [("TableName", VStr "T"); ("Key", key);
              ("ConditionExpression", VStr "");
              ("ExpressionAttributeNames", VObj []);
              ("ExpressionAttributeValues", VObj [])]])
       (Resolved (VObj [])).
Proof.
  intros self key w. split; [reflexivity|].
  exact (proj1 (proj2 (empty_condition_objects_are_attached self (VStr "T") key []
                         w written [] eq_refl))).
Defined.

(** X6. A completion without error settles the promise of [getItem], [putItem]
    and [deleteItem] with its [data], whatever that is and as it is. Any
    falsy [err] counts as no error: [null], [undefined], but also [0],
    [false] or the empty string. *)
Theorem success_passes_data_through
    (self : DynamoDBDocumentClient) (tableName x : value)
    (expr comparison : option obj)
    (w : World) (r : completion) (rest : list completion) :
  inbox w = r :: rest ->
  failed r = false ->
  ends (getItem self tableName x) w
       (mkWorld (config w) rest
          (issued w
             ++ [mkRequest (client self) Get [("TableName", tableName); ("Key", x)]]))
       (Resolved (data r)) /\
  ends (putItem self tableName x expr comparison) w
       (mkWorld (config w) rest
          (issued w
             ++ [mkRequest (client self) Put
                   (attachCondition [("TableName", tableName); ("Item", x)]
                                    expr comparison)]))
       (Resolved (data r)) /\
  ends (deleteItem self tableName x expr comparison) w
       (mkWorld (config w) rest
          (issued w
             ++ [mkRequest (client self) Delete
                   (attachCondition [("TableName", tableName); ("Key", x)]
                                    expr comparison)]))
       (Resolved (data r)).
Proof.
  intros Hin Hok.
  assert (Hsettle : settle r = Resolved (data r))
    by (unfold settle; unfold failed in Hok; now rewrite Hok).
  rewrite <- Hsettle.
  split; [now apply ends_getItem|].
  split; [now apply ends_putItem | now apply ends_deleteItem].
Qed.

Lemma success_passes_data_through_witness :
  let self := mkWrapper (mkClient (VStr "eu-west-1") VUndefined) in
  let key := VObj [("id", VStr "a")] in
  let r := mkCompletion (VStr "") (VObj [("Attributes", key)]) in
  let w := mkWorld [] [r] [] in
  inbox w = r :: [] /\
  failed r = false /\
  ends (deleteItem self (VStr "T") key None None) w
       (mkWorld [] []
          [mkRequest (client self) Delete [("TableName", VStr "T"); ("Key", key)]])
       (Resolved (VObj [("Attributes", key)])).
Proof.
  intros self key r w. split; [reflexivity | split; [reflexivity|]].
  exact (proj2 (proj2 (success_passes_data_through self (VStr "T") key None None
                         w r [] eq_refl eq_refl))).
Defined.

(** X7. The promise of [getItem], [putItem] or [deleteItem] is settled by the
    callback of its one request and by nothing else: every run that ends
    has taken exactly one completion from the client, has issued exactly
    one request, through the instance's own client, has left the shared
    configuration as it was, and ends as that completion says. *)
Theorem single_request_settles_by_its_callback
    (self : DynamoDBDocumentClient) (tableName x : value)
    (expr comparison : option obj) (w w' : World) (o : outcome) :
  ends (getItem self tableName x) w w' o \/
  ends (putItem self tableName x expr comparison) w w' o \/
  ends (deleteItem self tableName x expr comparison) w w' o ->
  exists (r : completion) (rq : request),
    inbox w = r :: inbox w' /\
    issued w' = issued w ++ [rq] /\
    via rq = client self /\
    config w' = config w /\
    o = settle r.
Proof.
  unfold getItem, putItem, deleteItem.
  intros [H | [H | H]];
    apply ends_single_inv in H; destruct H as (r & rest & Hin & -> & ->);
    exists r; eexists; simpl; repeat split; try exact Hin; reflexivity.
Qed.

Lemma single_request_settles_by_its_callback_witness :
  let self := mkWrapper (mkClient (VStr "eu-west-1") VUndefined) in
  let key := VObj [("id", VStr "a")] in
  let w := mkWorld [] [noItem; written] [] in
  let w' := mkWorld [] [written]
              [mkRequest (client self) Get [("TableName", VStr "T"); ("Key", key)]] in
  (ends (getItem self (VStr "T") key) w w' (Resolved (VObj [])) \/
   ends (putItem self (VStr "T") key None None) w w' (Resolved (VObj [])) \/
   ends (deleteItem self (VStr "T") key None None) w w' (Resolved (VObj []))) /\
  exists (r : completion) (rq : request),
    inbox w = r :: inbox w' /\
    issued w' = issued w ++ [rq] /\
    via rq = client self /\
    config w' = config w /\
    Resolved (VObj []) = settle r.
Proof.
  intros self key w w'.
  assert (H : ends (getItem self (VStr "T") key) w w' (Resolved (VObj [])))
    by exact (ends_getItem self (VStr "T") key w noItem [written] eq_refl).
  split; [left; exact H|].
  exact (single_request_settles_by_its_callback self (VStr "T") key None None
           w w' (Resolved (VObj [])) (or_introl H)).
Defined.

(* ===================================================================== *)
(** * More on the scan *)
(* ===================================================================== *)

(** The paginated scan over pages that carry a token, then a page
    without one. *)
Lemma ends_scan_done (self : DynamoDBDocumentClient) (tableName : value)
    (pages : list completion) (last : completion) (w : World)
    (rest : list completion) :
  Forall (fun c => morePage c = true) pages ->
  lastPage last = true ->
  inbox w = pages ++ last :: rest ->
  ends (scanTable self tableName true) w
       (answered w rest (scanRequests (client self) tableName (pages ++ [last])))
       (Resolved (VArr (flat_map pageItems pages ++ pageItems last))).
Proof.
  intros Hall Hlast Hin. unfold scanTable. simpl negb. cbv iota.
  destruct (lastPage_inv last Hlast) as (Hok & Hobj & Htok).
  apply (ends_scan_pages self pages _ _ w _ (last :: rest) _ Hall Hin).
  apply ends_iter_done.
  pose proof (ends_onScan_page self
                (paramsAfter [("TableName", tableName)] pages)
                ([] ++ flat_map pageItems pages)
                (answered w (last :: rest)
                   (loopRequests (client self) [("TableName", tableName)] pages))
                last rest eq_refl Hok Hobj) as Hstep.
  rewrite Htok, answered_answered, concat_pageItems in Hstep.
  rewrite <- (loopRequests_snoc _ _ _ last), !loopRequests_scanRequests in Hstep.
  rewrite loopRequests_scanRequests.
  exact Hstep.
Qed.

(** One turn of [onScan] on a completion without error whose [data] is
    [null] or [undefined]: reading [data.Items] raises. *)
Lemma ends_onScan_no_data (self : DynamoDBDocumentClient) (params : obj)
    (items : list value) (w : World) (r : completion) (rest : list completion) :
  inbox w = r :: rest ->
  failed r = false ->
  field (data r) "Items" = None ->
  ends (onScan self (params, items)) w
       (answered w rest [mkRequest (client self) Scan params])
       (inr Uncaught).
Proof.
  intros H Hok Hnone. unfold onScan.
  eapply ends_bind; [apply ends_call; eassumption|].
  unfold failed in Hok. rewrite Hok, Hnone. apply ends_ret.
Qed.

(** One turn of [onScan], read backwards: it took one completion for one
    request, and goes on only with the same parameters but for
    [ExclusiveStartKey]. *)
Lemma ends_onScan_inv (self : DynamoDBDocumentClient) (params : obj)
    (items : list value) (w w1 : World) (x : obj * list value + outcome) :
  ends (onScan self (params, items)) w w1 x ->
  exists r rest,
    inbox w = r :: rest /\
    w1 = answered w rest [mkRequest (client self) Scan params] /\
    match x with
    | inl (params', _) =>
        morePage r = true /\ params' = set params "ExclusiveStartKey" (tokenOf r)
    | inr _ => morePage r = false
    end.
Proof.
  unfold onScan. intros H.
  apply ends_bind_inv in H. destruct H as (w0 & r & Hcall & Hk).
  apply ends_call_inv in Hcall. destruct Hcall as (rest & Hin & ->).
  exists r, rest. split; [exact Hin|].
  unfold morePage, tokenOf.
  destruct (truthy (err r)).
  - apply ends_ret_inv in Hk. destruct Hk as [-> ->]. now split.
  - destruct (data r) as [ | | b | n | s | xs | d | f]; simpl in Hk |- *;
      try (apply ends_ret_inv in Hk; destruct Hk as [-> ->]; now split).
    destruct (truthy (get d "LastEvaluatedKey"));
      apply ends_ret_inv in Hk; destruct Hk as [-> ->]; now split.
Qed.

(** X8. With one page and no token, the paginated and the unpaginated scan do
    the same: one request, and the items of that page. *)
Theorem scanTable_single_page_agrees
    (self : DynamoDBDocumentClient) (tableName : value)
    (first : completion) (xs : list value) (w : World) (rest : list completion) :
  inbox w = first :: rest ->
  lastPage first = true ->
  itemsOf first = VArr xs ->
  let w' := mkWorld (config w) rest
              (issued w ++ [mkRequest (client self) Scan [("TableName", tableName)]]) in
  ends (scanTable self tableName true) w w' (Resolved (VArr xs)) /\
  ends (scanTable self tableName false) w w' (Resolved (VArr xs)).
Proof.
  intros Hin Hlast Hitems w'.
  destruct (lastPage_inv first Hlast) as (Hok & Hobj & _).
  split.
  - pose proof (ends_scan_done self tableName [] first w rest
                  (Forall_nil _) Hlast Hin) as H.
    unfold pageItems in H. rewrite Hitems in H. exact H.
  - pose proof (ends_scan_once self tableName w first rest Hin) as H.
    unfold failed in Hok. rewrite Hok in H.
    unfold itemsOf in Hitems.
    destruct (data first); try discriminate. simpl in H, Hitems.
    rewrite Hitems in H. exact H.
Qed.

Lemma scanTable_single_page_agrees_witness :
  let self := mkWrapper (mkClient (VStr "eu-west-1") VUndefined) in
  let a := VObj [("id", VStr "a")] in
  let first := mkCompletion VNull (VObj [("Items", VArr [a]); ("Count", VNum 1)]) in
  let w := mkWorld [] [first] [] in
  let w' := mkWorld [] [] [mkRequest (client self) Scan [("TableName", VStr "T")]] in
  inbox w = first :: [] /\
  lastPage first = true /\
  itemsOf first = VArr [a] /\
  ends (scanTable self (VStr "T") true) w w' (Resolved (VArr [a])) /\
  ends (scanTable self (VStr "T") false) w w' (Resolved (VArr [a])).
Proof.
  intros self a first w w'.
  split; [reflexivity | split; [reflexivity | split; [reflexivity|]]].
  exact (scanTable_single_page_agrees self (VStr "T") first [a] w []
           eq_refl eq_refl eq_refl).
Defined.

(** X9. The two scans differ on a page whose [Items] is not an array, a
    missing [Items] included: the unpaginated scan resolves with that
    value as it is ([undefined] when missing), the paginated scan resolves
    with an array holding it as its one element, since [concat] appends
    what is not an array as an element. *)
Theorem scanTable_items_not_an_array
    (self : DynamoDBDocumentClient) (tableName : value)
    (first : completion) (w : World) (rest : list completion) :
  inbox w = first :: rest ->
  lastPage first = true ->
  (forall xs, itemsOf first <> VArr xs) ->
  let w' := mkWorld (config w) rest
              (issued w ++ [mkRequest (client self) Scan [("TableName", tableName)]]) in
  ends (scanTable self tableName false) w w' (Resolved (itemsOf first)) /\
  ends (scanTable self tableName true) w w' (Resolved (VArr [itemsOf first])).
Proof.
  intros Hin Hlast Hnot w'.
  destruct (lastPage_inv first Hlast) as (Hok & Hobj & _).
  split.
  - pose proof (ends_scan_once self tableName w first rest Hin) as H.
    unfold failed in Hok. rewrite Hok in H.
    unfold itemsOf. destruct (data first); try discriminate. exact H.
  - pose proof (ends_scan_done self tableName [] first w rest
                  (Forall_nil _) Hlast Hin) as H.
    unfold pageItems, JS.concat in H.
    destruct (itemsOf first) as [ | | b | n | s | xs | d | f];
      try exact H.
    exfalso. exact (Hnot xs eq_refl).
Qed.

Lemma scanTable_items_not_an_array_witness :
  let self := mkWrapper (mkClient (VStr "eu-west-1") VUndefined) in
  let first := mkCompletion VNull (VObj [("Count", VNum 3)]) in
  let w := mkWorld [] [first] [] in
  let w' := mkWorld [] [] [mkRequest (client self) Scan [("TableName", VStr "T")]] in
  inbox w = first :: [] /\
  lastPage first = true /\
  (forall xs, itemsOf first <> VArr xs) /\
  ends (scanTable self (VStr "T") false) w w' (Resolved VUndefined) /\
  ends (scanTable self (VStr "T") true) w w' (Resolved (VArr [VUndefined])).
Proof.
  intros self first w w'.
  assert (H : forall xs, itemsOf first <> VArr xs) by (intros xs; discriminate).
  split; [reflexivity | split; [reflexivity | split; [exact H|]]].
  exact (scanTable_items_not_an_array self (VStr "T") first w [] eq_refl eq_refl H).
Defined.

(** X10. A completion without error and without data ([null] or [undefined]):
    [getItem] resolves with it, but both scans read [data.Items], which
    raises inside the callback, and their promise is neither resolved nor
    rejected; for the paginated scan, on whichever page this happens. *)
Theorem scanTable_raises_without_data
    (self : DynamoDBDocumentClient) (tableName key : value)
    (pages : list completion) (empty : completion)
    (w wp : World) (rest : list completion) :
  failed empty = false ->
  field (data empty) "Items" = None ->
  inbox w = empty :: rest ->
  Forall (fun c => morePage c = true) pages ->
  inbox wp = pages ++ empty :: rest ->
  ends (getItem self tableName key) w
       (mkWorld (config w) rest
          (issued w
             ++ [mkRequest (client self) Get [("TableName", tableName); ("Key", key)]]))
       (Resolved (data empty)) /\
  ends (scanTable self tableName false) w
       (mkWorld (config w) rest
          (issued w ++ [mkRequest (client self) Scan [("TableName", tableName)]]))
       Uncaught /\
  ends (scanTable self tableName true) wp
       (mkWorld (config wp) rest
          (issued wp ++ scanRequests (client self) tableName (pages ++ [empty])))
       Uncaught.
Proof.
  intros Hok Hnone Hin Hall Hinp.
  split; [|split].
  - pose proof (ends_getItem self tableName key w empty rest Hin) as H.
    unfold settle in H. unfold failed in Hok. rewrite Hok in H. exact H.
  - pose proof (ends_scan_once self tableName w empty rest Hin) as H.
    unfold failed in Hok. rewrite Hok, Hnone in H. exact H.
  - unfold scanTable. simpl negb. cbv iota.
    apply (ends_scan_pages self pages _ _ wp _ (empty :: rest) _ Hall Hinp).
    apply ends_iter_done.
    pose proof (ends_onScan_no_data self
                  (paramsAfter [("TableName", tableName)] pages)
                  ([] ++ flat_map pageItems pages)
                  (answered wp (empty :: rest)
                     (loopRequests (client self) [("TableName", tableName)] pages))
                  empty rest eq_refl Hok Hnone) as Hstep.
    rewrite answered_answered in Hstep.
    rewrite <- (loopRequests_snoc _ _ _ empty), !loopRequests_scanRequests in Hstep.
    rewrite loopRequests_scanRequests.
    exact Hstep.
Qed.

Lemma scanTable_raises_without_data_witness :
  let self := mkWrapper (mkClient (VStr "eu-west-1") VUndefined) in
  let a := VObj [("id", VStr "a")] in
  let page1 := mkCompletion VNull (VObj [("Items", VArr [a]); ("LastEvaluatedKey", a)]) in
  let empty := mkCompletion VNull VNull in
  let w := mkWorld [] [empty] [] in
  let wp := mkWorld [] [page1; empty] [] in
  failed empty = false /\
  field (data empty) "Items" = None /\
  inbox w = empty :: [] /\
  Forall (fun c => morePage c = true) [page1] /\
  inbox wp = [page1] ++ empty :: [] /\
  ends (scanTable self (VStr "T") false) w
       (mkWorld [] [] [mkRequest (client self) Scan [("TableName", VStr "T")]])
       Uncaught /\
  ends (scanTable self (VStr "T") true) wp
       (mkWorld [] []
          [mkRequest (client self) Scan [("TableName", VStr "T")];
           mkRequest (client self) Scan
             [("TableName", VStr "T"); ("ExclusiveStartKey", a)]])
       Uncaught.
Proof.
  intros self a page1 empty w wp.
  assert (H4 : Forall (fun c => morePage c = true) [page1]) by (repeat constructor).
  split; [reflexivity | split; [reflexivity | split; [reflexivity |
    split; [exact H4 | split; [reflexivity|]]]]].
  exact (proj2 (scanTable_raises_without_data self (VStr "T") a [page1] empty
                  w wp [] eq_refl eq_refl eq_refl H4 eq_refl)).
Defined.

(** A run of the scan loop that ends, read backwards: the completions it
    took are pages with a token followed by one completion that is no such
    page, and its requests are those of the loop for them. *)
Lemma ends_scan_loop_inv (self : DynamoDBDocumentClient) (l : list completion) :
  forall (params : obj) (items : list value) (w w' : World) (o : outcome),
    inbox w = l ->
    ends (ITree.iter (onScan self) (params, items)) w w' o ->
    exists (pages : list completion) (final : completion),
      inbox w = pages ++ final :: inbox w' /\
      Forall (fun c => morePage c = true) pages /\
      morePage final = false /\
      issued w' = issued w ++ loopRequests (client self) params (pages ++ [final]) /\
      config w' = config w.
Proof.
  induction l as [|c l IH]; intros params items w w' o Hl H;
    apply ends_iter_inv in H; destruct H as (w1 & x & Hbody & Hx);
    apply ends_onScan_inv in Hbody; destruct Hbody as (r & rest & Hin & -> & Hkind);
    rewrite Hl in Hin; [discriminate|].
  inversion Hin; subst r rest.
  destruct x as [[params' items'] | o'].
  - destruct Hkind as [Hmore ->].
    destruct (IH _ _ (answered w l [mkRequest (client self) Scan params]) _ _
                 eq_refl Hx)
      as (pages & final & Hin' & Hall & Hfinal & Hiss & Hcfg).
    exists (c :: pages), final.
    simpl in Hin', Hiss, Hcfg.
    split; [rewrite Hl, Hin'; reflexivity|].
    split; [now constructor|].
    split; [exact Hfinal|].
    split; [|exact Hcfg].
    rewrite Hiss, <- app_assoc. reflexivity.
  - destruct Hx as [-> _].
    exists [], c. simpl.
    split; [exact Hl|].
    split; [constructor|].
    split; [exact Hkind|].
    split; reflexivity.
Qed.

(** X11. A paginated scan that settles has received pages with a token
    followed by exactly one completion that is not such a page (a last
    page, a failure, or a completion without data), has issued for them the
    chain of requests in which each carries the token of the response
    before, and nothing else; the shared configuration is as it was. *)
Theorem scanTable_paginated_settles_only_so
    (self : DynamoDBDocumentClient) (tableName : value)
    (w w' : World) (o : outcome) :
  ends (scanTable self tableName true) w w' o ->
  exists (pages : list completion) (final : completion),
    inbox w = pages ++ final :: inbox w' /\
    Forall (fun c => morePage c = true) pages /\
    morePage final = false /\
    issued w' = issued w ++ scanRequests (client self) tableName (pages ++ [final]) /\
    config w' = config w /\
    (failed final = true -> o = Rejected (err final)) /\
    (lastPage final = true ->
     o = Resolved (VArr (flat_map pageItems pages ++ pageItems final))).
Proof.
  intros H.
  assert (Hloop : ends (ITree.iter (onScan self) ([("TableName", tableName)], [])) w w' o)
    by exact H.
  destruct (ends_scan_loop_inv self (inbox w) _ _ _ _ _ eq_refl Hloop)
    as (pages & final & Hin & Hall & Hfinal & Hiss & Hcfg).
  exists pages, final.
  split; [exact Hin|].
  split; [exact Hall|].
  split; [exact Hfinal|].
  split; [now rewrite Hiss, loopRequests_scanRequests|].
  split; [exact Hcfg|].
  split.
  - intros Hbad.
    pose proof (ends_scan_failed self tableName pages final w (inbox w') Hall Hbad Hin)
      as Hfwd.
    now destruct (ends_unique _ _ _ _ _ _ H Hfwd).
  - intros Hlast.
    pose proof (ends_scan_done self tableName pages final w (inbox w') Hall Hlast Hin)
      as Hfwd.
    now destruct (ends_unique _ _ _ _ _ _ H Hfwd).
Qed.

Lemma scanTable_paginated_settles_only_so_witness :
  let self := mkWrapper (mkClient (VStr "eu-west-1") VUndefined) in
  let a := VObj [("id", VStr "a")] in
  let b := VObj [("id", VStr "b")] in
  let page1 := mkCompletion VNull (VObj [("Items", VArr [a]); ("LastEvaluatedKey", a)]) in
  let page2 := mkCompletion VNull (VObj [("Items", VArr [b])]) in
  let w := mkWorld [] [page1; page2; noItem] [] in
  let w' := mkWorld [] [noItem]
              [mkRequest (client self) Scan [("TableName", VStr "T")];
               mkRequest (client self) Scan
                 [("TableName", VStr "T"); ("ExclusiveStartKey", a)]] in
  ends (scanTable self (VStr "T") true) w w' (Resolved (VArr [a; b])) /\
  exists (pages : list completion) (final : completion),
    inbox w = pages ++ final :: inbox w' /\
    Forall (fun c => morePage c = true) pages /\
    morePage final = false /\
    issued w' = issued w ++ scanRequests (client self) (VStr "T") (pages ++ [final]) /\
    config w' = config w /\
    (failed final = true -> Resolved (VArr [a; b]) = Rejected (err final)) /\
    (lastPage final = true ->
     Resolved (VArr [a; b])
     = Resolved (VArr (flat_map pageItems pages ++ pageItems final))).
Proof.
  intros self a b page1 page2 w w'.
  assert (H : ends (scanTable self (VStr "T") true) w w' (Resolved (VArr [a; b]))).
  { apply (exec_ends 10). vm_compute. reflexivity. }
  split; [exact H|].
  exact (scanTable_paginated_settles_only_so self (VStr "T") w w' _ H).
Defined.

(** X12. While every response carries a token the paginated scan asks for the
    next page: when the client stops answering after such pages, the
    promise is never settled, and the items received so far are not
    delivered. *)
Theorem scanTable_paginated_pending_after_token
    (self : DynamoDBDocumentClient) (tableName : value)
    (pages : list completion) (w : World) :
  Forall (fun c => morePage c = true) pages ->
  inbox w = pages ->
  ~ exists (w' : World) (o : outcome), ends (scanTable self tableName true) w w' o.
Proof.
  intros Hall Hin (w' & o & H).
  assert (Hloop : ends (ITree.iter (onScan self) ([("TableName", tableName)], [])) w w' o)
    by exact H.
  destruct (ends_scan_loop_inv self (inbox w) _ _ _ _ _ eq_refl Hloop)
    as (pages' & final & Hin' & Hall' & Hfinal & _).
  rewrite Hin in Hin'. rewrite Hin' in Hall.
  rewrite Forall_app in Hall. destruct Hall as [_ Hall].
  inversion Hall as [|? ? Hc _]; subst.
  rewrite Hc in Hfinal. discriminate.
Qed.

Lemma scanTable_paginated_pending_after_token_witness :
  let self := mkWrapper (mkClient (VStr "eu-west-1") VUndefined) in
  let a := VObj [("id", VStr "a")] in
  let page1 := mkCompletion VNull (VObj [("Items", VArr [a]); ("LastEvaluatedKey", a)]) in
  let w := mkWorld [] [page1] [] in
  Forall (fun c => morePage c = true) [page1] /\
  inbox w = [page1] /\
  ~ exists (w' : World) (o : outcome), ends (scanTable self (VStr "T") true) w w' o.
Proof.
  intros self a page1 w.
  assert (H1 : Forall (fun c => morePage c = true) [page1]) by (repeat constructor).
  split; [exact H1 | split; [reflexivity|]].
  exact (scanTable_paginated_pending_after_token self (VStr "T") [page1] w H1 eq_refl).
Defined.

(* ===================================================================== *)
(** * More on construction *)
(* ===================================================================== *)

Lemma lookup_set_same (o : obj) (k : string) (v : value) :
  lookup (set o k v) k = Some v.
Proof.
  induction o as [|[k' v'] o IH]; simpl.
  - now rewrite String.eqb_refl.
  - destruct (String.eqb_spec k' k) as [-> | Hne]; simpl.
    + now rewrite String.eqb_refl.
    + destruct (String.eqb_spec k' k); [contradiction | assumption].
Qed.

(** Writing the value a property has changes nothing. *)
Lemma set_noop (o : obj) (k : string) (v : value) :
  lookup o k = Some v -> set o k v = o.
Proof.
  induction o as [|[k' v'] o IH]; simpl; [discriminate|].
  destruct (String.eqb_spec k' k) as [-> | Hne].
  - intros H. now inversion H.
  - intros H. now rewrite IH.
Qed.

Lemma world_eta (w : World) : mkWorld (config w) (inbox w) (issued w) = w.
Proof.
  now destruct w.
Qed.

(** Constructed twice over, the configuration is the one constructed
    once. *)
Lemma configPatch_twice (region endpoint : value) (cfg : obj) :
  spread (spread cfg (configPatch region endpoint)) (configPatch region endpoint)
  = spread cfg (configPatch region endpoint).
Proof.
  unfold configPatch, guarded.
  destruct (truthy region), (truthy endpoint); simpl; try reflexivity.
  - rewrite (set_noop _ "region" region).
    + apply set_noop, lookup_set_same.
    + rewrite lookup_set_other by discriminate. apply lookup_set_same.
  - apply set_noop, lookup_set_same.
  - apply set_noop, lookup_set_same.
Qed.

Lemma configPatch_frame (region endpoint : value) (cfg : obj) (k : string) :
  k <> "region" -> k <> "dynamodb" ->
  get (spread cfg (configPatch region endpoint)) k = get cfg k.
Proof.
  intros Hr Hd. unfold configPatch, guarded.
  destruct (truthy region), (truthy endpoint); simpl; try reflexivity;
    repeat (rewrite get_set_other by (intros Heq; symmetry in Heq; contradiction));
    reflexivity.
Qed.

(** X13. Constructed without a region and without an endpoint (or with falsy
    ones, such as the empty string), the wrapper leaves the shared
    configuration untouched and its client takes the region and endpoint
    that are configured already. *)
Theorem constructor_without_arguments (region endpoint : value) (w : World) :
  truthy region = false ->
  truthy endpoint = false ->
  ends (constructor region endpoint) w w (mkWrapper (clientOf (config w))).
Proof.
  intros Hr He.
  pose proof (ends_constructor region endpoint w) as H.
  unfold configPatch, guarded in H. rewrite Hr, He in H. simpl in H.
  now rewrite world_eta in H.
Qed.

Lemma constructor_without_arguments_witness :
  let cfg := [("region", VStr "us-east-1");
              ("dynamodb", VObj [("endpoint", VStr "http://localhost:8000")])] in
  let w := mkWorld cfg [] [] in
  truthy VUndefined = false /\
  truthy (VStr "") = false /\
  ends (constructor VUndefined (VStr "")) w w
       (mkWrapper (mkClient (VStr "us-east-1") (VStr "http://localhost:8000"))).
Proof.
  intros cfg w. split; [reflexivity | split; [reflexivity|]].
  exact (constructor_without_arguments VUndefined (VStr "") w eq_refl eq_refl).
Defined.

(** X14. What a construction touches: it issues no request and takes no
    completion; of the shared configuration it writes [region] and
    [dynamodb] and leaves every other key as it was; a given endpoint
    replaces the whole [dynamodb] entry by [{ endpoint }], so that other
    settings kept under [dynamodb] are gone. The instance's client is the
    one the resulting configuration gives. *)
Theorem constructor_touches_region_and_dynamodb
    (region endpoint : value) (w w1 : World) (a : DynamoDBDocumentClient) :
  ends (constructor region endpoint) w w1 a ->
  inbox w1 = inbox w /\
  issued w1 = issued w /\
  (forall k, k <> "region" -> k <> "dynamodb" ->
             get (config w1) k = get (config w) k) /\
  get (config w1) "region" = (if truthy region then region else get (config w) "region") /\
  get (config w1) "dynamodb"
  = (if truthy endpoint then VObj [("endpoint", endpoint)]
     else get (config w) "dynamodb") /\
  a = mkWrapper (clientOf (config w1)).
Proof.
  intros H.
  destruct (ends_unique _ _ _ _ _ _ H (ends_constructor region endpoint w)) as [-> ->].
  simpl.
  split; [reflexivity | split; [reflexivity|]].
  split; [intros k Hr Hd; now apply configPatch_frame|].
  split; [apply region_after|].
  split; [apply configPatch_dynamodb | reflexivity].
Qed.

Lemma constructor_touches_region_and_dynamodb_witness :
  let cfg := [("maxRetries", VNum 3);
              ("dynamodb", VObj [("apiVersion", VStr "2012-08-10")])] in
  let w := mkWorld cfg [noItem] [] in
  let endpoint := VStr "http://localhost:8000" in
  let cfg1 := [("maxRetries", VNum 3);
               ("dynamodb", VObj [("endpoint", endpoint)]);
               ("region", VStr "eu-west-1")] in
  let w1 := mkWorld cfg1 [noItem] [] in
  let a := mkWrapper (mkClient (VStr "eu-west-1") endpoint) in
  ends (constructor (VStr "eu-west-1") endpoint) w w1 a /\
  inbox w1 = inbox w /\
  issued w1 = issued w /\
  (forall k, k <> "region" -> k <> "dynamodb" ->
             get (config w1) k = get (config w) k) /\
  get (config w1) "region" = VStr "eu-west-1" /\
  get (config w1) "dynamodb" = VObj [("endpoint", endpoint)] /\
  a = mkWrapper (clientOf (config w1)).
Proof.
  intros cfg w endpoint cfg1 w1 a.
  assert (H : ends (constructor (VStr "eu-west-1") endpoint) w w1 a)
    by exact (ends_constructor (VStr "eu-west-1") endpoint w).
  split; [exact H|].
  exact (constructor_touches_region_and_dynamodb (VStr "eu-west-1") endpoint w w1 a H).
Defined.

(** X15. Constructing a second time with the same arguments changes nothing
    more: the shared configuration stays as the first construction left
    it, and the second instance has the same client as the first. *)
Theorem constructor_twice_same_arguments
    (region endpoint : value) (w w1 : World) (a : DynamoDBDocumentClient) :
  ends (constructor region endpoint) w w1 a ->
  ends (constructor region endpoint) w1 w1 a.
Proof.
  intros H.
  destruct (ends_unique _ _ _ _ _ _ H (ends_constructor region endpoint w)) as [-> ->].
  pose proof (ends_constructor region endpoint
                (mkWorld (spread (config w) (configPatch region endpoint))
                         (inbox w) (issued w))) as H2.
  simpl in H2. rewrite configPatch_twice in H2. exact H2.
Qed.

Lemma constructor_twice_same_arguments_witness :
  let w := mkWorld [("region", VStr "us-east-1")] [] [] in
  let endpoint := VStr "http://localhost:8000" in
  let w1 := mkWorld [("region", VStr "eu-west-1");
                     ("dynamodb", VObj [("endpoint", endpoint)])] [] [] in
  let a := mkWrapper (mkClient (VStr "eu-west-1") endpoint) in
  ends (constructor (VStr "eu-west-1") endpoint) w w1 a /\
  ends (constructor (VStr "eu-west-1") endpoint) w1 w1 a.
Proof.
  intros w endpoint w1 a.
  assert (H : ends (constructor (VStr "eu-west-1") endpoint) w w1 a)
    by exact (ends_constructor (VStr "eu-west-1") endpoint w).
  split; [exact H|].
  exact (constructor_twice_same_arguments (VStr "eu-west-1") endpoint w w1 a H).
Defined.
